(** * Unit conversion of CSV measurement rows: a model of [main.py]

    [convert_data] reads rows [Date,Distance,Reading], converts the distance
    between meters and feet and the reading between Celsius and Fahrenheit,
    and writes the rows to a new file.  The development follows the source
    statement by statement:

    - [PyStr]: Python [str] values as lists of code points, with the string
      operations the source uses (slices, [lower], [split], [strip], [in]);
    - [Float64]: Python [float] values as IEEE binary64 numbers (on top of
      the integer specification [SpecFloat]), with [float(s)] and the
      [:.2f] format;
    - [Convertor]: the four conversion functions of the [convertor] package;
    - [Csv]: how [csv.writer] serialises a row;
    - [Main]: [convert_data] itself, exceptions made explicit. *)

From Stdlib Require Import ZArith NArith QArith Qabs Qpower List Bool Lia Lqa.
From Stdlib Require Import String Ascii.
From Stdlib Require Import Floats.SpecFloat DecimalPos DecimalN.
Import ListNotations.

Close Scope Q_scope.
Close Scope Z_scope.
Close Scope N_scope.
Close Scope string_scope.

(** ** Python strings *)

Module PyStr.

(** A character is a Unicode code point; a [str] is a sequence of them. *)
Definition char := N.
Definition pystr := list char.

(** An ASCII literal of the source, character by character. *)
Definition str (s : string) : pystr :=
  map N_of_ascii (list_ascii_of_string s).

(** The degree sign, U+00B0. *)
Definition degree : char := 176%N.

Definition char_eqb (a b : char) : bool := N.eqb a b.

Fixpoint eqb (s t : pystr) : bool :=
  match s, t with
  | [], [] => true
  | a :: s', b :: t' => char_eqb a b && eqb s' t'
  | _, _ => false
  end.

(** [s[-n:]] for [n > 0]: the last [n] characters, the whole string when it
    is shorter. *)
Definition take_last (n : nat) (s : pystr) : pystr :=
  skipn (List.length s - n) s.

(** [s[:-n]] for [n > 0]: all but the last [n] characters, the empty string
    when [s] is shorter. *)
Definition drop_last (n : nat) (s : pystr) : pystr :=
  firstn (List.length s - n) s.

(** [s[-1]]: the last character; [None] stands for [IndexError]. *)
Definition last_char (s : pystr) : option char :=
  match s with
  | [] => None
  | c :: s' => Some (last s' c)
  end.

(** [str.lower] on the letters A-Z.  The source only compares the result
    with ["ft"], and no code point other than [F] and [T] has [f] or [t] as
    its lowercase form, so the comparison is decided by this part of the
    mapping. *)
Definition lower_char (c : char) : char :=
  if ((65 <=? c) && (c <=? 90))%N then (c + 32)%N else c.

Definition lower (s : pystr) : pystr := map lower_char s.

(** [str.isspace] of one character, the set [str.strip()] removes. *)
Definition isspace (c : char) : bool :=
  (((9 <=? c) && (c <=? 13)) || ((28 <=? c) && (c <=? 32))
   || (c =? 133) || (c =? 160) || (c =? 5760)
   || ((8192 <=? c) && (c <=? 8202))
   || (c =? 8232) || (c =? 8233) || (c =? 8239) || (c =? 8287)
   || (c =? 12288))%N.

Fixpoint lstrip_with (sp : char -> bool) (s : pystr) : pystr :=
  match s with
  | [] => []
  | c :: s' => if sp c then lstrip_with sp s' else s
  end.

Definition strip_with (sp : char -> bool) (s : pystr) : pystr :=
  rev (lstrip_with sp (rev (lstrip_with sp s))).

(** [s.strip()] *)
Definition strip (s : pystr) : pystr := strip_with isspace s.

(** [s.split(sep)] for a separator of one character: the pieces between
    the occurrences of [sep]; a string without [sep] gives one piece. *)
Fixpoint split (sep : char) (s : pystr) : list pystr :=
  match s with
  | [] => [[]]
  | c :: s' =>
      if char_eqb c sep then [] :: split sep s'
      else match split sep s' with
           | [] => [[c]]
           | p :: ps => (c :: p) :: ps
           end
  end.

(** [c in s] for a string [c] of one character. *)
Definition contains (c : char) (s : pystr) : bool := existsb (char_eqb c) s.

End PyStr.

Export PyStr.

(** ** Python floats *)

Module Float64.

(** A Python [float] is an IEEE 754 binary64 number: 53 bits of precision,
    infinities at exponent 1024, every operation rounded to nearest, ties to
    even. *)
Definition prec : Z := 53.
Definition emax : Z := 1024.
Definition float := spec_float.

Definition fadd : float -> float -> float := SFadd prec emax.
Definition fsub : float -> float -> float := SFsub prec emax.
Definition fmul : float -> float -> float := SFmul prec emax.
Definition fdiv : float -> float -> float := SFdiv prec emax.

(** The float with value [(-1)^s * m * 10^e], correctly rounded: what a
    decimal literal of the source, or [float] of a decimal string, denotes. *)
Definition of_decimal (s : bool) (m : N) (e : Z) : float :=
  match m with
  | N0 => S754_zero s
  | Npos p =>
      match e with
      | Z0 => binary_round prec emax s p 0
      | Zpos k => binary_round prec emax s (p * Pos.pow 10 k) 0
      | Zneg k =>
          let '(q, e', l) :=
            SFdiv_core_binary prec emax (Zpos p) 0 (Zpos (Pos.pow 10 k)) 0 in
          binary_round_aux prec emax s q e' l
      end
  end.

(** An [int] operand of a float operation ([9], [5], [32] in the conversion
    formulas). *)
Definition of_Z (z : Z) : float := binary_normalize prec emax z 0 false.

Definition is_finite (x : float) : bool :=
  match x with
  | S754_zero _ | S754_finite _ _ _ => true
  | S754_infinity _ | S754_nan => false
  end.

(** *** [float(s)] *)

Definition is_digit (c : char) : bool := ((48 <=? c) && (c <=? 57))%N.

Definition underscore : char := 95%N.

(** The digit zero of every set of decimal digits outside ASCII: each is
    followed by its digits one to nine (Arabic-Indic U+0660, Devanagari
    U+0966, ..., fullwidth U+FF10, the mathematical digits U+1D7CE).  This
    is the table of Unicode 14.0, the one CPython 3.11 is built with. *)
Definition decimal_zeros : list N :=
  [1632; 1776; 1984; 2406; 2534; 2662; 2790; 2918; 3046; 3174; 3302; 3430;
   3558; 3664; 3792; 3872; 4160; 4240; 6112; 6160; 6470; 6608; 6784; 6800;
   6992; 7088; 7232; 7248; 42528; 43216; 43264; 43472; 43504; 43600; 44016;
   65296; 66720; 68912; 69734; 69872; 69942; 70096; 70384; 70736; 70864;
   71248; 71360; 71472; 71904; 72016; 72784; 73040; 73120; 92768; 92864;
   93008; 120782; 120792; 120802; 120812; 120822; 123200; 123632; 125264;
   130032]%N.

(** The value of a decimal digit outside ASCII. *)
Definition decimal_value (c : char) : option N :=
  option_map (fun z => (c - z)%N)
    (find (fun z => ((z <=? c) && (c <=? z + 9))%N) decimal_zeros).

(** [float] first brings its argument to ASCII: a character below 127
    stays, white space outside ASCII becomes a space, a decimal digit
    outside ASCII becomes the ASCII digit of its value, and at any other
    character the string ends with a question mark, which no number
    holds. *)
Fixpoint to_ascii (s : pystr) : pystr :=
  match s with
  | [] => []
  | c :: s' =>
      if (c <? 127)%N then c :: to_ascii s'
      else if isspace c then 32%N :: to_ascii s'
      else match decimal_value c with
           | Some d => (48 + d)%N :: to_ascii s'
           | None => [63%N]
           end
  end.

(** The white space [float] strips from the ASCII string: tab, line feed,
    vertical tab, form feed, carriage return and space. *)
Definition is_ascii_space (c : char) : bool :=
  (((9 <=? c) && (c <=? 13)) || (c =? 32))%N.

(** Underscores are accepted only between two digits; they are removed
    before the number is read.  [prev] is the character before [s]. *)
Fixpoint drop_underscores (prev : option char) (s : pystr) : option pystr :=
  match s with
  | [] =>
      match prev with
      | Some p => if char_eqb p underscore then None else Some []
      | None => Some []
      end
  | c :: s' =>
      if char_eqb c underscore then
        match prev with
        | Some p => if is_digit p then drop_underscores (Some c) s' else None
        | None => None
        end
      else
        let after_underscore :=
          match prev with
          | Some p => char_eqb p underscore
          | None => false
          end in
        if after_underscore && negb (is_digit c) then None
        else option_map (cons c) (drop_underscores (Some c) s')
  end.

(** An optional sign: [true] for [-]. *)
Definition read_sign (s : pystr) : bool * pystr :=
  match s with
  | 43%N :: s' => (false, s')
  | 45%N :: s' => (true, s')
  | _ => (false, s)
  end.

(** A run of digits continuing the number [acc]: its value, how many digits
    were read, and the rest of the string. *)
Fixpoint read_digits (acc : N) (n : nat) (s : pystr) : N * nat * pystr :=
  match s with
  | c :: s' =>
      if is_digit c then read_digits (acc * 10 + (c - 48))%N (S n) s'
      else (acc, n, s)
  | [] => (acc, n, s)
  end.

(** The exponent part: [e] or [E], an optional sign and at least one digit,
    up to the end of the string; no exponent part is exponent 0. *)
Definition read_exponent (s : pystr) : option Z :=
  match s with
  | [] => Some 0%Z
  | c :: s' =>
      if char_eqb (lower_char c) 101%N then
        let '(neg, s1) := read_sign s' in
        match read_digits 0 0 s1 with
        | (_, O, _) => None
        | (v, S _, []) => Some (if neg then (- Z.of_N v)%Z else Z.of_N v)
        | (_, S _, _ :: _) => None
        end
      else None
  end.

(** [digits [. [digits]] [exponent]] or [. digits [exponent]], with at least
    one digit before the exponent. *)
Definition read_number (neg : bool) (s : pystr) : option float :=
  let '(m1, n1, s1) := read_digits 0 0 s in
  let '(m, n2, s2) :=
    match s1 with
    | 46%N :: s1' => read_digits m1 0 s1'
    | _ => (m1, O, s1)
    end in
  match (n1 + n2)%nat with
  | O => None
  | S _ =>
      match read_exponent s2 with
      | Some e => Some (of_decimal neg m (e - Z.of_nat n2))
      | None => None
      end
  end.

(** [float(s)] for a string [s]; [None] stands for [ValueError].  The
    string is brought to ASCII, underscores between digits are removed,
    white space around the number is ignored; [inf], [infinity] and [nan]
    are accepted in any letter case, with a sign. *)
Definition float_of_str (s : pystr) : option float :=
  match drop_underscores None (to_ascii s) with
  | None => None
  | Some s0 =>
      let '(neg, s1) := read_sign (strip_with is_ascii_space s0) in
      let word := lower s1 in
      if eqb word (str "inf") || eqb word (str "infinity")
      then Some (S754_infinity neg)
      else if eqb word (str "nan") then Some S754_nan
      else read_number neg s1
  end.

(** *** The format [:.2f] *)

(** [m * 2^e * 100] rounded to the nearest integer, ties to even. *)
Definition hundredths (m : positive) (e : Z) : N :=
  match e with
  | Zneg k =>
      let d := N.pos (Pos.pow 2 k) in
      let n := (100 * N.pos m)%N in
      let q := (n / d)%N in
      match (2 * (n mod d) ?= d)%N with
      | Lt => q
      | Eq => if N.even q then q else (q + 1)%N
      | Gt => (q + 1)%N
      end
  | Z0 => (100 * N.pos m)%N
  | Zpos k => (100 * N.pos m * N.pos (Pos.pow 2 k))%N
  end.

Fixpoint uint_chars (d : Decimal.uint) : pystr :=
  match d with
  | Decimal.Nil => []
  | Decimal.D0 d' => 48%N :: uint_chars d'
  | Decimal.D1 d' => 49%N :: uint_chars d'
  | Decimal.D2 d' => 50%N :: uint_chars d'
  | Decimal.D3 d' => 51%N :: uint_chars d'
  | Decimal.D4 d' => 52%N :: uint_chars d'
  | Decimal.D5 d' => 53%N :: uint_chars d'
  | Decimal.D6 d' => 54%N :: uint_chars d'
  | Decimal.D7 d' => 55%N :: uint_chars d'
  | Decimal.D8 d' => 56%N :: uint_chars d'
  | Decimal.D9 d' => 57%N :: uint_chars d'
  end.

(** The decimal digits of a natural number, at least one. *)
Definition decimal (n : N) : pystr := uint_chars (N.to_uint n).

Definition digit_char (n : N) : char := (48 + n mod 10)%N.

Definition sign_chars (s : bool) : pystr := if s then [45%N] else [].

Definition fixed2 (s : bool) (n : N) : pystr :=
  sign_chars s ++ decimal (n / 100)
    ++ [46%N; digit_char (n / 10); digit_char n].

(** [f"{x:.2f}"]: the exact value of [x] rounded to two decimals, ties to
    even; the sign is kept on a result that rounds to zero; infinities and
    NaN have no digits. *)
Definition format_2f (x : float) : pystr :=
  match x with
  | S754_nan => str "nan"
  | S754_infinity s => sign_chars s ++ str "inf"
  | S754_zero s => fixed2 s 0
  | S754_finite s m e => fixed2 s (hundredths m e)
  end.

(** Does [s] read digits[.]digit digit, with at least one digit before
    the point? *)
Definition is_unsigned_fixed2 (s : pystr) : bool :=
  match rev s with
  | d2 :: d1 :: p :: ds =>
      char_eqb p 46%N && is_digit d2 && is_digit d1 && forallb is_digit ds
        && negb (Nat.eqb (List.length ds) 0)
  | _ => false
  end.

(** The same after an optional minus sign. *)
Definition is_fixed2 (s : pystr) : bool :=
  match s with
  | c :: s' => is_unsigned_fixed2 (if char_eqb c 45%N then s' else s)
  | [] => false
  end.

End Float64.

Export Float64.

(** ** The [convertor] package *)

Module Convertor.

(** The arithmetic the conversion formulas are written in: the four
    operations, [int] operands and decimal literals [m * 10^e]. *)
Class Arith (A : Type) : Type := {
  add : A -> A -> A;
  sub : A -> A -> A;
  mul : A -> A -> A;
  div : A -> A -> A;
  int : Z -> A;
  lit : N -> Z -> A
}.

(** Python evaluates the formulas on floats. *)
#[export] Instance float_arith : Arith float := {
  add := fadd; sub := fsub; mul := fmul; div := fdiv;
  int := of_Z; lit := of_decimal false
}.

(** The same formulas can be read over exact rational numbers. *)
#[export] Instance Q_arith : Arith Q := {
  add := Qplus; sub := Qminus; mul := Qmult; div := Qdiv;
  int := inject_Z;
  lit := fun m e => Qmult (inject_Z (Z.of_N m)) (Qpower (inject_Z 10) e)
}.

Section Formulas.
Context {A : Type} `{Arith A}.

(** Modelled from the spec: [convertor/distance.py] is not among the
    sources; [metersToFeet(m) = m * 3.28084]. *)
Definition meters_to_feet (m : A) : A := mul m (lit 328084 (-5)).

(** Modelled from the spec: [convertor/distance.py] is not among the
    sources; [feetToMeters(ft) = ft / 3.28084]. *)
Definition feet_to_meters (ft : A) : A := div ft (lit 328084 (-5)).

(** Modelled from the spec: [convertor/temperature.py] is not among the
    sources; [celsiusToFahrenheit(c) = c * 9/5 + 32], which Python reads
    as [((c * 9) / 5) + 32]. *)
Definition celsius_to_fahrenheit (c : A) : A :=
  add (div (mul c (int 9)) (int 5)) (int 32).

(** Modelled from the spec: [convertor/temperature.py] is not among the
    sources; [fahrenheitToCelsius(f) = (f - 32) * 5/9], which Python reads
    as [((f - 32) * 5) / 9]. *)
Definition fahrenheit_to_celsius (f : A) : A :=
  div (mul (sub f (int 32)) (int 5)) (int 9).
End Formulas.

(** The names [main.py] imports them under, at the type it calls them. *)
Definition to_F : float -> float := celsius_to_fahrenheit.
Definition to_C : float -> float := fahrenheit_to_celsius.
Definition to_ft : float -> float := meters_to_feet.
Definition to_m : float -> float := feet_to_meters.

(** The exact value of a finite float. *)
Definition Q_of_float (x : float) : option Q :=
  match x with
  | S754_zero _ => Some (inject_Z 0)
  | S754_finite s m e =>
      Some (Qmult (inject_Z (if s then Zneg m else Zpos m))
                  (Qpower (inject_Z 2) e))
  | _ => None
  end.

(** [abs(x - y) <= tol] on floats, decided on their exact values; it fails
    when one of them is infinite or NaN. *)
Definition within (tol : Q) (x y : float) : bool :=
  match Q_of_float x, Q_of_float y with
  | Some a, Some b => Qle_bool (Qabs (Qminus a b)) tol
  | _, _ => false
  end.

End Convertor.

Export Convertor.

(** ** The CSV writer *)

Module Csv.

(** [csv.writer(outfile)] with the default dialect: fields separated by a
    comma, a field quoted only when it holds a comma, a quote, a carriage
    return or a line feed, quotes inside it doubled, rows ended by CR LF. *)
Definition comma : char := 44%N.
Definition quote : char := 34%N.
Definition CR : char := 13%N.
Definition LF : char := 10%N.

Definition needs_quotes (f : pystr) : bool :=
  existsb (fun c => char_eqb c comma || char_eqb c quote
                    || char_eqb c CR || char_eqb c LF) f.

Definition quoted (f : pystr) : pystr :=
  quote :: flat_map (fun c => if char_eqb c quote then [quote; quote] else [c]) f
    ++ [quote].

Definition field (f : pystr) : pystr :=
  if needs_quotes f then quoted f else f.

Fixpoint join (sep : char) (fs : list pystr) : pystr :=
  match fs with
  | [] => []
  | [f] => f
  | f :: fs' => f ++ sep :: join sep fs'
  end.

(** The text [writer.writerow(row)] adds to the file; a row of one empty
    field is written as a pair of quotes. *)
Definition writerow (row : list pystr) : pystr :=
  match row with
  | [[]] => [quote; quote; CR; LF]
  | _ => join comma (map field row) ++ [CR; LF]
  end.

End Csv.

(** ** [main.py] *)

Module Main.

(** The exceptions [convert_data] can raise on the rows it is given. *)
Inductive exn : Type :=
| StopIteration
    (** [next(reader)] on an input without a header row *)
| ValueError_unpack (expected got : nat)
    (** a tuple assignment with the wrong number of values *)
| IndexError
    (** [distance[-1]] on the empty string *)
| ValueError_float (s : pystr).
    (** [float(s)]: could not convert string to float *)

Inductive result (A : Type) : Type :=
| OK (a : A)
| Raise (e : exn).
Arguments OK {A} a.
Arguments Raise {A} e.

Definition bind {A B : Type} (r : result A) (k : A -> result B) : result B :=
  match r with
  | OK a => k a
  | Raise e => Raise e
  end.

Notation "x <- r ;; k" := (bind r (fun x => k))
  (at level 61, r at next level, right associativity).
Notation "' p <- r ;; k" := (bind r (fun x => match x with p => k end))
  (at level 61, p pattern, r at next level, right associativity).

(** A row as [csv.reader] yields it: the list of its fields. *)
Definition row := list pystr.

(** [date, distance, reading = row] *)
Definition unpack3 (r : row) : result (pystr * pystr * pystr) :=
  match r with
  | [a; b; c] => OK (a, b, c)
  | _ => Raise (ValueError_unpack 3 (List.length r))
  end.

(** [temp_value, temp_unit = ...] *)
Definition unpack2 (l : list pystr) : result (pystr * pystr) :=
  match l with
  | [a; b] => OK (a, b)
  | _ => Raise (ValueError_unpack 2 (List.length l))
  end.

(** [float(s)] *)
Definition float_ (s : pystr) : result float :=
  match float_of_str s with
  | Some x => OK x
  | None => Raise (ValueError_float s)
  end.

(** The value and the unit of a distance field. *)
Definition parse_distance (distance : pystr) : result (pystr * pystr) :=
  if eqb (lower (take_last 2 distance)) (str "ft") then
    OK (drop_last 2 distance, str "ft")
  else
    match last_char distance with
    | Some c => OK (drop_last 1 distance, [c])
    | None => Raise IndexError
    end.

(** The value and the unit of a reading field: the unit is the part after
    the degree sign, stripped, with the degree sign put back. *)
Definition parse_reading (reading : pystr) : result (pystr * pystr) :=
  '(temp_value, temp_unit) <- unpack2 (split degree reading) ;;
  OK (temp_value, degree :: strip temp_unit).

(** The two tests under [# Convert distance]. *)
Definition dist_to_m (target_dist_unit dist_unit : pystr) : bool :=
  eqb target_dist_unit (str "m") && eqb dist_unit (str "ft").
Definition dist_to_ft (target_dist_unit dist_unit : pystr) : bool :=
  eqb target_dist_unit (str "f") && eqb dist_unit (str "m").

Definition convert_distance
    (target_dist_unit distance dist_value dist_unit : pystr) : result pystr :=
  if dist_to_m target_dist_unit dist_unit then
    x <- float_ dist_value ;;
    OK (format_2f (to_m x) ++ str "m")
  else if dist_to_ft target_dist_unit dist_unit then
    x <- float_ dist_value ;;
    OK (format_2f (to_ft x) ++ str "ft")
  else OK distance.

(** The two tests under [# Convert temperature]; 70 is [F], 67 is [C]. *)
Definition temp_to_C (target_temp_unit temp_unit : pystr) : bool :=
  eqb target_temp_unit (str "C") && contains 70%N temp_unit.
Definition temp_to_F (target_temp_unit temp_unit : pystr) : bool :=
  eqb target_temp_unit (str "F") && contains 67%N temp_unit.

Definition convert_temperature
    (target_temp_unit reading temp_value temp_unit : pystr) : result pystr :=
  if temp_to_C target_temp_unit temp_unit then
    x <- float_ temp_value ;;
    OK (format_2f (to_C x) ++ degree :: str "C")
  else if temp_to_F target_temp_unit temp_unit then
    x <- float_ temp_value ;;
    OK (format_2f (to_F x) ++ degree :: str "F")
  else OK reading.

(** A field is converted when one of the two tests of its block holds. *)
Definition dist_converted (target_dist_unit dist_unit : pystr) : bool :=
  dist_to_m target_dist_unit dist_unit || dist_to_ft target_dist_unit dist_unit.
Definition temp_converted (target_temp_unit temp_unit : pystr) : bool :=
  temp_to_C target_temp_unit temp_unit || temp_to_F target_temp_unit temp_unit.

(** The unit a target selects, named by the suffix the source writes for
    it: [m] selects ["m"], [f] selects ["ft"]; [C] and [F] select the
    letter after a degree sign.  Any other target selects nothing. *)
Definition dist_suffix (target_dist_unit : pystr) : option pystr :=
  if eqb target_dist_unit (str "m") then Some (str "m")
  else if eqb target_dist_unit (str "f") then Some (str "ft")
  else None.
Definition temp_suffix (target_temp_unit : pystr) : option pystr :=
  if eqb target_temp_unit (str "C") then Some (degree :: str "C")
  else if eqb target_temp_unit (str "F") then Some (degree :: str "F")
  else None.

(** The body of the loop: the row written for one input row. *)
Definition process_row (target_temp_unit target_dist_unit : pystr) (r : row)
    : result row :=
  '(date, distance, reading) <- unpack3 r ;;
  '(dist_value, dist_unit) <- parse_distance distance ;;
  '(temp_value, temp_unit) <- parse_reading reading ;;
  new_distance <-
    convert_distance target_dist_unit distance dist_value dist_unit ;;
  new_reading <-
    convert_temperature target_temp_unit reading temp_value temp_unit ;;
  OK [date; new_distance; new_reading].

(** [for row in reader: ...], with the rows written so far: the loop stops
    at the first exception, and what was written stays in the file. *)
Fixpoint loop (target_temp_unit target_dist_unit : pystr)
    (rows : list row) (written : list row) : list row * result unit :=
  match rows with
  | [] => (written, OK tt)
  | r :: rows' =>
      match process_row target_temp_unit target_dist_unit r with
      | OK new_row =>
          loop target_temp_unit target_dist_unit rows' (written ++ [new_row])
      | Raise e => (written, Raise e)
      end
  end.

(** [convert_data(input_file, output_file, target_temp_unit,
    target_dist_unit)] on the rows [csv.reader] yields for [input_file]:
    the rows in [output_file] when the call ends, and how it ends.  The
    output file is opened, hence emptied, before the header is read. *)
Definition convert_data (target_temp_unit target_dist_unit : pystr)
    (infile : list row) : list row * result unit :=
  match infile with
  | [] => ([], Raise StopIteration)
  | header :: rows => loop target_temp_unit target_dist_unit rows [header]
  end.

(** The text of the output file. *)
Definition file_text (rows : list row) : pystr :=
  List.concat (map Csv.writerow rows).

End Main.

Export Main.

(** ** Vocabulary of the properties *)

(** [pre] is processed without an exception and gives the rows [outs]. *)
Definition processed (tT tD : pystr) (pre outs : list row) : Prop :=
  Forall2 (fun r o => process_row tT tD r = OK o) pre outs.

(** The field [v°u]. *)
Definition reading_of (v u : string) : pystr := str v ++ degree :: str u.

Definition header_row : row := [str "Date"; str "Distance"; str "Reading"].

Definition scenario_row : row :=
  [str "2024-01-01"; str "41m"; reading_of "10" "C"].

Definition scenario_B_row : row :=
  [str "2024-01-01"; str "134.51ft"; reading_of "50.00" "F"].

(** The tolerance of the spec, [1e-6]. *)
Definition tolerance : Q := 1 # 1000000.

(** How many degree signs a reading holds. *)
Definition degree_signs (reading : pystr) : nat :=
  count_occ N.eq_dec reading degree.

(** The float a finite [x] becomes when it is written with two decimals
    and read again: its value rounded to hundredths, then to binary64. *)
Definition round_2f (x : float) : float :=
  match x with
  | S754_finite s m e => of_decimal s (hundredths m e) (-2)
  | _ => x
  end.

(** Case analysis on the comparisons of code points in a goal, keeping
    the cases the bounds at hand allow. *)
Ltac decide_comparisons :=
  repeat match goal with
  | |- context [N.leb ?a ?b] => destruct (N.leb_spec a b); try lia
  | |- context [N.eqb ?a ?b] => destruct (N.eqb_spec a b); try lia
  end.

(** The rows that end a run, by what they hold, and the exception each
    one ends it with: a row that has not three fields; a row with an empty
    distance; a row whose reading has not one degree sign; a row whose
    distance is converted and has a value [float] rejects; a row whose
    distance goes through and whose reading is converted and has a value
    [float] rejects. *)
Inductive row_raises (tT tD : pystr) : row -> exn -> Prop :=
| raises_field_count (r : row) :
    List.length r <> 3 ->
    row_raises tT tD r (ValueError_unpack 3 (List.length r))
| raises_empty_distance (date reading : pystr) :
    row_raises tT tD [date; []; reading] IndexError
| raises_degree_signs (date distance reading : pystr) :
    distance <> [] ->
    degree_signs reading <> 1 ->
    row_raises tT tD [date; distance; reading]
      (ValueError_unpack 2 (S (degree_signs reading)))
| raises_distance_value (date distance reading dv du : pystr) :
    parse_distance distance = OK (dv, du) ->
    degree_signs reading = 1 ->
    dist_converted tD du = true ->
    float_of_str dv = None ->
    row_raises tT tD [date; distance; reading] (ValueError_float dv)
| raises_reading_value (date distance reading dv du tv tu : pystr) :
    parse_distance distance = OK (dv, du) ->
    parse_reading reading = OK (tv, tu) ->
    (dist_converted tD du = true -> float_of_str dv <> None) ->
    temp_converted tT tu = true ->
    float_of_str tv = None ->
    row_raises tT tD [date; distance; reading] (ValueError_float tv).

(** The error analysis of the float operations is made over the rationals:
    [P2 e] is [2^e]; [u52] is the gap between 1 and the next float, [eta]
    the smallest positive float, and [rho] the relative error allowed to
    one rounded operation. *)
Definition P2 (e : Z) : Q := Qpower (inject_Z 2) e.
Definition u52 : Q := P2 (-52).
Definition eta : Q := P2 (-1074).
Definition rho : Q := (2 * u52 + u52 * u52)%Q.

(** The exact value of a float, 0 for an infinity or a NaN. *)
Definition value (x : float) : Q :=
  match Q_of_float x with
  | Some q => q
  | None => 0%Q
  end.

Definition sgn (s : bool) (q : Q) : Q := if s then (- q)%Q else q.

(** A rounded result: finite and close to the number it stands for. *)
Definition rounds_to (z : float) (v : Q) : Prop :=
  is_finite z = true
  /\ (Qabs (value z - v) <= rho * Qabs v + 3 * eta)%Q.

(** * Properties *)

(** ** Strings *)

Lemma eqb_eq (s t : pystr) : eqb s t = true <-> s = t.
Proof.
  revert t; induction s as [|a s IH]; intros [|b t]; simpl;
    try (split; [discriminate | discriminate]); try tauto.
  unfold char_eqb; rewrite andb_true_iff, N.eqb_eq, IH.
  split; [intros [-> ->]; reflexivity | intros E; injection E; auto].
Qed.

Lemma eqb_refl (s : pystr) : eqb s s = true.
Proof. apply eqb_eq; reflexivity. Qed.

Lemma eqb_neq (s t : pystr) : s <> t -> eqb s t = false.
Proof.
  intros D; destruct (eqb s t) eqn:E; [|reflexivity].
  apply eqb_eq in E; contradiction.
Qed.

Lemma split_without_sep (sep : char) (s : pystr) :
  contains sep s = false -> split sep s = [s].
Proof.
  unfold contains, char_eqb; induction s as [|c s IH]; simpl; [reflexivity|].
  intros E; apply orb_false_iff in E as [E1 E2].
  rewrite N.eqb_sym, E1, (IH E2); reflexivity.
Qed.

(** ** The loop *)

Lemma loop_processed (tT tD : pystr) (pre outs rest written : list row) :
  processed tT tD pre outs ->
  loop tT tD (pre ++ rest) written = loop tT tD rest (written ++ outs).
Proof.
  intros P; revert written; induction P as [|r o pre outs E _ IH]; intros written.
  - rewrite app_nil_r; reflexivity.
  - simpl; rewrite E, IH, <- app_assoc; reflexivity.
Qed.

Lemma convert_data_raises (tT tD : pystr) (header : row)
    (pre outs : list row) (bad : row) (post : list row) (e : exn) :
  processed tT tD pre outs ->
  process_row tT tD bad = Raise e ->
  convert_data tT tD (header :: pre ++ bad :: post) = (header :: outs, Raise e).
Proof.
  intros P B; simpl.
  rewrite (loop_processed tT tD pre outs (bad :: post) [header] P); simpl.
  rewrite B; reflexivity.
Qed.

Lemma convert_data_completes (tT tD : pystr) (header : row)
    (rows outs : list row) :
  processed tT tD rows outs ->
  convert_data tT tD (header :: rows) = (header :: outs, OK tt).
Proof.
  intros P; simpl.
  rewrite <- (app_nil_r rows), (loop_processed tT tD rows outs [] [header] P); reflexivity.
Qed.

(** ** One row *)

Lemma process_row_steps (tT tD date distance reading dv du tv tu : pystr) :
  parse_distance distance = OK (dv, du) ->
  parse_reading reading = OK (tv, tu) ->
  process_row tT tD [date; distance; reading] =
    (new_distance <- convert_distance tD distance dv du ;;
     new_reading <- convert_temperature tT reading tv tu ;;
     OK [date; new_distance; new_reading]).
Proof.
  intros D R; unfold process_row; simpl; rewrite D; simpl; rewrite R.
  reflexivity.
Qed.

Lemma parse_distance_nonempty (distance : pystr) :
  distance <> [] -> exists dv du, parse_distance distance = OK (dv, du).
Proof.
  intros NE; unfold parse_distance.
  destruct (eqb _ _); [eauto|].
  destruct distance as [|c s]; [contradiction|]; simpl; eauto.
Qed.

Lemma convert_distance_passthrough (tD distance dv du : pystr) :
  dist_converted tD du = false ->
  convert_distance tD distance dv du = OK distance.
Proof.
  unfold dist_converted, convert_distance; intros E.
  apply orb_false_iff in E as [-> ->]; reflexivity.
Qed.

Lemma convert_temperature_passthrough (tT reading tv tu : pystr) :
  temp_converted tT tu = false ->
  convert_temperature tT reading tv tu = OK reading.
Proof.
  unfold temp_converted, convert_temperature; intros E.
  apply orb_false_iff in E as [-> ->]; reflexivity.
Qed.

Lemma convert_distance_raises (tD distance dv du : pystr) :
  dist_converted tD du = true -> float_of_str dv = None ->
  convert_distance tD distance dv du = Raise (ValueError_float dv).
Proof.
  unfold dist_converted, convert_distance, float_; intros E F.
  rewrite F; destruct (dist_to_m tD du); [reflexivity|].
  simpl in E; rewrite E; reflexivity.
Qed.

Lemma convert_temperature_raises (tT reading tv tu : pystr) :
  temp_converted tT tu = true -> float_of_str tv = None ->
  convert_temperature tT reading tv tu = Raise (ValueError_float tv).
Proof.
  unfold temp_converted, convert_temperature, float_; intros E F.
  rewrite F; destruct (temp_to_C tT tu); [reflexivity|].
  simpl in E; rewrite E; reflexivity.
Qed.

(** An invalid target never converts. *)
Lemma invalid_dist_target (tD du : pystr) :
  tD <> str "m" -> tD <> str "f" -> dist_converted tD du = false.
Proof.
  intros M F; unfold dist_converted, dist_to_m, dist_to_ft.
  rewrite (eqb_neq _ _ M), (eqb_neq _ _ F); reflexivity.
Qed.

Lemma invalid_temp_target (tT tu : pystr) :
  tT <> str "C" -> tT <> str "F" -> temp_converted tT tu = false.
Proof.
  intros C F; unfold temp_converted, temp_to_C, temp_to_F.
  rewrite (eqb_neq _ _ C), (eqb_neq _ _ F); reflexivity.
Qed.

(** C1: the row [2024-01-01,41m,10°C] with targets [F] and [f] is written
    as [2024-01-01,134.51ft,50.00°F]: 41 m is 134.51444 ft, rendered
    [134.51], and 10 °C is exactly 50 °F.  The row follows the header in
    the output, and the writer puts it on one line without quotes. *)
Theorem scenario_B_row_written (header : row) :
  convert_data (str "F") (str "f") [header; scenario_row]
    = ([header; scenario_B_row], OK tt)
  /\ option_map to_ft (float_of_str (str "41"))
       = Some (S754_finite false 4732806108280867 (-45))
  /\ option_map to_F (float_of_str (str "10")) = Some (of_Z 50)
  /\ Csv.writerow scenario_B_row
       = str "2024-01-01,134.51ft,50.00" ++ degree :: str "F"
           ++ [Csv.CR; Csv.LF].
Proof. repeat split; vm_compute; reflexivity. Qed.

(** C2: a field is converted only when its parsed unit differs from the
    unit the target selects, and when the two are the same the field is
    written as it was read: the conversion tests fail, [float] and the
    format are not reached, and a row whose two units both match is written
    verbatim. *)
Theorem passthrough_when_units_match
    (tT tD date distance reading dv du tv tu : pystr) :
  parse_distance distance = OK (dv, du) ->
  parse_reading reading = OK (tv, tu) ->
  (dist_converted tD du = true -> dist_suffix tD <> Some du)
  /\ (temp_converted tT tu = true -> temp_suffix tT <> Some tu)
  /\ (dist_suffix tD = Some du ->
      convert_distance tD distance dv du = OK distance)
  /\ (temp_suffix tT = Some tu ->
      convert_temperature tT reading tv tu = OK reading)
  /\ (dist_suffix tD = Some du ->
      forall out, process_row tT tD [date; distance; reading] = OK out ->
                  exists new_reading, out = [date; distance; new_reading])
  /\ (temp_suffix tT = Some tu ->
      forall out, process_row tT tD [date; distance; reading] = OK out ->
                  exists new_distance, out = [date; new_distance; reading])
  /\ (dist_suffix tD = Some du -> temp_suffix tT = Some tu ->
      process_row tT tD [date; distance; reading]
        = OK [date; distance; reading]).
Proof.
  intros D R.
  assert (DM : dist_suffix tD = Some du -> dist_converted tD du = false).
  { unfold dist_suffix, dist_converted, dist_to_m, dist_to_ft.
    destruct (eqb tD (str "m")) eqn:M.
    - apply eqb_eq in M; subst tD.
      intros E; injection E as <-; reflexivity.
    - destruct (eqb tD (str "f")) eqn:F; [|discriminate].
      apply eqb_eq in F; subst tD.
      intros E; injection E as <-; reflexivity. }
  assert (TM : temp_suffix tT = Some tu -> temp_converted tT tu = false).
  { unfold temp_suffix, temp_converted, temp_to_C, temp_to_F.
    destruct (eqb tT (str "C")) eqn:C.
    - apply eqb_eq in C; subst tT.
      intros E; injection E as <-; reflexivity.
    - destruct (eqb tT (str "F")) eqn:F; [|discriminate].
      apply eqb_eq in F; subst tT.
      intros E; injection E as <-; reflexivity. }
  rewrite (process_row_steps tT tD date distance reading dv du tv tu D R).
  split; [|split; [|split; [|split; [|split; [|split]]]]].
  - intros E S; rewrite (DM S) in E; discriminate.
  - intros E S; rewrite (TM S) in E; discriminate.
  - intros S; apply convert_distance_passthrough, DM, S.
  - intros S; apply convert_temperature_passthrough, TM, S.
  - intros S out.
    rewrite (convert_distance_passthrough _ distance dv _ (DM S)); simpl.
    destruct (convert_temperature tT reading tv tu) as [nr|]; simpl;
      [|discriminate].
    intros E; injection E as <-; exists nr; reflexivity.
  - intros S out.
    rewrite (convert_temperature_passthrough _ reading tv _ (TM S)).
    destruct (convert_distance tD distance dv du) as [nd|]; simpl;
      [|discriminate].
    intros E; injection E as <-; exists nd; reflexivity.
  - intros SD ST.
    rewrite (convert_distance_passthrough _ _ _ _ (DM SD)).
    rewrite (convert_temperature_passthrough _ _ _ _ (TM ST)).
    reflexivity.
Qed.

(** Scenario A: the row [2024-01-01,41m,10°C] with targets [C] and [m]. *)
Lemma passthrough_when_units_match_witness :
  process_row (str "C") (str "m") scenario_row = OK scenario_row.
Proof.
  refine (proj2 (proj2 (proj2 (proj2 (proj2 (proj2
    (@passthrough_when_units_match (str "C") (str "m")
       (str "2024-01-01") (str "41m") (reading_of "10" "C")
       (str "41") (str "m") (str "10") (degree :: str "C") _ _)))))) _ _);
    vm_compute; reflexivity.
Defined.

(** C3, the claim as the spec has it, fails: the distance [41yd] and the
    reading [10°K] carry units outside the recognised ones, and the row is
    written as it is, with no exception. *)
Lemma unsupported_unit_not_rejected :
  convert_data (str "C") (str "m")
    [header_row; [str "2024-01-01"; str "41yd"; reading_of "10" "K"]]
  = ([header_row; [str "2024-01-01"; str "41yd"; reading_of "10" "K"]],
     OK tt).
Proof. vm_compute; reflexivity. Qed.

(** C3, amended: no unit symbol is rejected.  A distance whose unit is
    neither ["m"] nor ["ft"] is written verbatim under every target, so is
    a reading whose unit holds neither [C] nor [F], and a row with both is
    written verbatim with no exception. *)
Theorem unrecognised_units_pass_through
    (tT tD date distance reading dv du tv tu : pystr) :
  parse_distance distance = OK (dv, du) ->
  parse_reading reading = OK (tv, tu) ->
  (du <> str "m" -> du <> str "ft" ->
   convert_distance tD distance dv du = OK distance)
  /\ (contains 67%N tu = false -> contains 70%N tu = false ->
      convert_temperature tT reading tv tu = OK reading)
  /\ (du <> str "m" -> du <> str "ft" ->
      contains 67%N tu = false -> contains 70%N tu = false ->
      process_row tT tD [date; distance; reading]
        = OK [date; distance; reading]).
Proof.
  intros D R.
  assert (DU : du <> str "m" -> du <> str "ft" -> dist_converted tD du = false).
  { intros M F; unfold dist_converted, dist_to_m, dist_to_ft.
    rewrite (eqb_neq _ _ M), (eqb_neq _ _ F), !andb_false_r; reflexivity. }
  assert (TU : contains 67%N tu = false -> contains 70%N tu = false ->
               temp_converted tT tu = false).
  { intros C F; unfold temp_converted, temp_to_C, temp_to_F.
    rewrite C, F, !andb_false_r; reflexivity. }
  repeat split.
  - intros M F; apply convert_distance_passthrough, DU; assumption.
  - intros C F; apply convert_temperature_passthrough, TU; assumption.
  - intros M F C F'.
    rewrite (process_row_steps tT tD date distance reading dv du tv tu D R).
    rewrite (convert_distance_passthrough _ _ _ _ (DU M F)).
    rewrite (convert_temperature_passthrough _ _ _ _ (TU C F')).
    reflexivity.
Qed.

Lemma unrecognised_units_pass_through_witness :
  process_row (str "F") (str "f")
    [str "2024-01-01"; str "41yd"; reading_of "10" "K"]
  = OK [str "2024-01-01"; str "41yd"; reading_of "10" "K"].
Proof.
  refine (proj2 (proj2
    (@unrecognised_units_pass_through (str "F") (str "f")
       (str "2024-01-01") (str "41yd") (reading_of "10" "K")
       (str "41y") (str "d") (str "10") (degree :: str "K") _ _)) _ _ _ _);
    try (vm_compute; reflexivity); vm_compute; discriminate.
Defined.

(** C4, the claim as the spec has it, fails: the magnitude [abc] of the
    distance [abcm] is no number, and with the target [m] the row is written
    as it is, with no exception. *)
Lemma malformed_value_not_rejected :
  float_of_str (str "abc") = None
  /\ convert_data (str "C") (str "m")
       [header_row; [str "2024-01-01"; str "abcm"; reading_of "10" "C"]]
     = ([header_row; [str "2024-01-01"; str "abcm"; reading_of "10" "C"]],
        OK tt).
Proof. split; vm_compute; reflexivity. Qed.

(** C4, amended: a magnitude is handed to [float] only when its field is
    converted.  A magnitude that is no number then ends the row with
    [ValueError], for the distance first and for the reading when the
    distance went through; a row none of whose fields is converted is
    written verbatim whatever its magnitudes are. *)
Theorem malformed_value_only_when_converted
    (tT tD date distance reading dv du tv tu : pystr) :
  parse_distance distance = OK (dv, du) ->
  parse_reading reading = OK (tv, tu) ->
  (dist_converted tD du = true -> float_of_str dv = None ->
   process_row tT tD [date; distance; reading] = Raise (ValueError_float dv))
  /\ (temp_converted tT tu = true -> float_of_str tv = None ->
      forall new_distance,
        convert_distance tD distance dv du = OK new_distance ->
        process_row tT tD [date; distance; reading]
          = Raise (ValueError_float tv))
  /\ (dist_converted tD du = false -> temp_converted tT tu = false ->
      process_row tT tD [date; distance; reading]
        = OK [date; distance; reading]).
Proof.
  intros D R.
  rewrite (process_row_steps tT tD date distance reading dv du tv tu D R).
  repeat split.
  - intros E F; rewrite (convert_distance_raises _ _ _ _ E F); reflexivity.
  - intros E F nd C; rewrite C, (convert_temperature_raises _ _ _ _ E F).
    reflexivity.
  - intros ED ET.
    rewrite (convert_distance_passthrough _ _ _ _ ED).
    rewrite (convert_temperature_passthrough _ _ _ _ ET); reflexivity.
Qed.

Lemma malformed_value_only_when_converted_witness :
  process_row (str "C") (str "f")
    [str "2024-01-01"; str "abcm"; reading_of "10" "C"]
  = Raise (ValueError_float (str "abc")).
Proof.
  refine (proj1
    (@malformed_value_only_when_converted (str "C") (str "f")
       (str "2024-01-01") (str "abcm") (reading_of "10" "C")
       (str "abc") (str "m") (str "10") (degree :: str "C") _ _) _ _);
    vm_compute; reflexivity.
Defined.

(** C5, the claim as the spec has it, fails: the reading [10C] has no
    degree sign, but the distance of the row is empty and is parsed first,
    so the run ends with the [IndexError] of the distance and not with the
    [ValueError] of the reading. *)
Lemma missing_degree_sign_masked_by_distance :
  contains degree (str "10C") = false
  /\ convert_data (str "C") (str "m")
       [header_row; [str "2024-01-01"; []; str "10C"]; scenario_row]
     = ([header_row], Raise IndexError).
Proof. split; vm_compute; reflexivity. Qed.

(** C5, amended: a row with a distance field that is not empty and a
    reading without a degree sign ends the run with the [ValueError] of
    the assignment [temp_value, temp_unit = reading.split("°")], which
    receives one value; the output holds the header and the rows processed
    before, nothing of this row or the rows after it. *)
Theorem missing_degree_sign_raises (tT tD : pystr) (header : row)
    (pre outs : list row) (date distance reading : pystr) (post : list row) :
  processed tT tD pre outs ->
  distance <> [] ->
  contains degree reading = false ->
  convert_data tT tD (header :: pre ++ [date; distance; reading] :: post)
    = (header :: outs, Raise (ValueError_unpack 2 1)).
Proof.
  intros P NE ND; apply convert_data_raises; [exact P|].
  destruct (parse_distance_nonempty distance NE) as (dv & du & D).
  unfold process_row; simpl; rewrite D; simpl.
  unfold parse_reading; rewrite (split_without_sep degree reading ND).
  reflexivity.
Qed.

Lemma missing_degree_sign_raises_witness :
  convert_data (str "C") (str "m")
    [header_row; scenario_row; [str "2024-01-02"; str "5m"; str "10C"];
     scenario_row]
  = ([header_row; scenario_row], Raise (ValueError_unpack 2 1)).
Proof.
  refine (@missing_degree_sign_raises (str "C") (str "m") header_row
            [scenario_row] [scenario_row]
            (str "2024-01-02") (str "5m") (str "10C") [scenario_row] _ _ _).
  - constructor; [vm_compute; reflexivity | constructor].
  - vm_compute; discriminate.
  - vm_compute; reflexivity.
Defined.

(** C6, the claim as the spec has it, fails: the distance [m] has no
    character left once its suffix is removed, and with the target [m] the
    row is written as it is, with no exception; so is the distance [ft]
    with the target [f]. *)
Lemma bare_suffix_not_rejected :
  convert_data (str "C") (str "m")
    [header_row; [str "2024-01-01"; str "m"; reading_of "10" "C"]]
  = ([header_row; [str "2024-01-01"; str "m"; reading_of "10" "C"]], OK tt)
  /\ convert_data (str "C") (str "f")
       [header_row; [str "2024-01-01"; str "ft"; reading_of "10" "C"]]
     = ([header_row; [str "2024-01-01"; str "ft"; reading_of "10" "C"]],
        OK tt).
Proof. split; vm_compute; reflexivity. Qed.

(** C6, amended: the distance error is the [IndexError] of [distance[-1]],
    and it is raised for the empty distance field and for no other.  A
    field that is only a suffix parses with an empty magnitude: it is
    written verbatim when the field is not converted, and [float] of the
    empty magnitude raises [ValueError] when it is. *)
Theorem malformed_distance_is_empty_field
    (tT tD date distance reading : pystr) :
  (distance = [] ->
   process_row tT tD [date; distance; reading] = Raise IndexError)
  /\ (distance <> [] ->
      process_row tT tD [date; distance; reading] <> Raise IndexError)
  /\ (forall du, parse_distance distance = OK ([], du) ->
      convert_distance tD distance [] du
        = if dist_converted tD du then Raise (ValueError_float [])
          else OK distance).
Proof.
  repeat split.
  - intros ->; reflexivity.
  - intros NE.
    destruct (parse_distance_nonempty distance NE) as (dv & du & D).
    unfold process_row; simpl; rewrite D; simpl.
    unfold parse_reading, unpack2.
    destruct (split degree reading) as [|a [|b [|c l]]]; simpl;
      try discriminate.
    unfold convert_distance, convert_temperature, float_.
    destruct (dist_to_m tD du), (dist_to_ft tD du), (float_of_str dv),
      (temp_to_C tT (degree :: strip b)), (temp_to_F tT (degree :: strip b)),
      (float_of_str a); simpl; discriminate.
  - intros du _.
    destruct (dist_converted tD du) eqn:E.
    + apply convert_distance_raises; [exact E | reflexivity].
    + apply convert_distance_passthrough; exact E.
Qed.

Lemma malformed_distance_is_empty_field_witness :
  process_row (str "C") (str "m") [str "2024-01-01"; []; reading_of "10" "C"]
    = Raise IndexError
  /\ process_row (str "C") (str "m")
       [str "2024-01-01"; str "ft"; reading_of "10" "C"]
     <> Raise IndexError
  /\ convert_distance (str "m") (str "ft") [] (str "ft")
     = Raise (ValueError_float []).
Proof.
  split; [|split].
  - refine (proj1 (@malformed_distance_is_empty_field (str "C") (str "m")
             (str "2024-01-01") [] (reading_of "10" "C")) _); reflexivity.
  - refine (proj1 (proj2 (@malformed_distance_is_empty_field (str "C")
             (str "m") (str "2024-01-01") (str "ft") (reading_of "10" "C")))
             _); vm_compute; discriminate.
  - refine (proj2 (proj2 (@malformed_distance_is_empty_field (str "C")
             (str "m") (str "2024-01-01") (str "ft") (reading_of "10" "C")))
             (str "ft") _); vm_compute; reflexivity.
Defined.

(** C10, the claim as the spec has it, fails on its first half: with the
    target [ft] an empty distance field is not written verbatim, the row
    ends the run with [IndexError]. *)
Lemma invalid_target_empty_distance_raises :
  convert_data (str "C") (str "ft")
    [header_row; [str "2024-01-01"; []; reading_of "10" "C"]]
  = ([header_row], Raise IndexError).
Proof. vm_compute; reflexivity. Qed.

(** C10, amended: a distance target other than [m] and [f] converts no
    distance: every distance field that is not empty goes through the
    conversion step verbatim and with no exception, and every row written
    carries its distance as read.  A temperature target other than [C] and
    [F] does the same for every reading with one degree sign.  With both
    targets invalid such a row is written verbatim. *)
Theorem invalid_targets_pass_through (tT tD date distance reading : pystr) :
  (tD <> str "m" -> tD <> str "f" -> distance <> [] ->
   exists dv du, parse_distance distance = OK (dv, du)
                 /\ convert_distance tD distance dv du = OK distance)
  /\ (tD <> str "m" -> tD <> str "f" ->
      forall out, process_row tT tD [date; distance; reading] = OK out ->
                  exists new_reading, out = [date; distance; new_reading])
  /\ (tT <> str "C" -> tT <> str "F" ->
      forall tv tu, parse_reading reading = OK (tv, tu) ->
                    convert_temperature tT reading tv tu = OK reading)
  /\ (tT <> str "C" -> tT <> str "F" ->
      forall out, process_row tT tD [date; distance; reading] = OK out ->
                  exists new_distance, out = [date; new_distance; reading])
  /\ (tD <> str "m" -> tD <> str "f" -> tT <> str "C" -> tT <> str "F" ->
      distance <> [] ->
      forall tv tu, parse_reading reading = OK (tv, tu) ->
                    process_row tT tD [date; distance; reading]
                      = OK [date; distance; reading]).
Proof.
  repeat split.
  - intros M F NE.
    destruct (parse_distance_nonempty distance NE) as (dv & du & D).
    exists dv, du; split; [exact D|].
    apply convert_distance_passthrough, invalid_dist_target; assumption.
  - intros M F out; unfold process_row; simpl.
    destruct (parse_distance distance) as [[dv du]|]; simpl; [|discriminate].
    destruct (parse_reading reading) as [[tv tu]|]; simpl; [|discriminate].
    rewrite (convert_distance_passthrough tD distance dv du
               (invalid_dist_target tD du M F)); simpl.
    destruct (convert_temperature tT reading tv tu) as [nr|]; simpl;
      [|discriminate].
    intros E; injection E as <-; exists nr; reflexivity.
  - intros C F tv tu _.
    apply convert_temperature_passthrough, invalid_temp_target; assumption.
  - intros C F out; unfold process_row; simpl.
    destruct (parse_distance distance) as [[dv du]|]; simpl; [|discriminate].
    destruct (parse_reading reading) as [[tv tu]|]; simpl; [|discriminate].
    rewrite (convert_temperature_passthrough tT reading tv tu
               (invalid_temp_target tT tu C F)).
    destruct (convert_distance tD distance dv du) as [nd|]; simpl;
      [|discriminate].
    intros E; injection E as <-; exists nd; reflexivity.
  - intros M F C F' NE tv tu R.
    destruct (parse_distance_nonempty distance NE) as (dv & du & D).
    rewrite (process_row_steps tT tD date distance reading dv du tv tu D R).
    rewrite (convert_distance_passthrough tD distance dv du
               (invalid_dist_target tD du M F)).
    rewrite (convert_temperature_passthrough tT reading tv tu
               (invalid_temp_target tT tu C F')).
    reflexivity.
Qed.

Lemma invalid_targets_pass_through_witness :
  process_row (str "K") (str "ft")
    [str "2024-01-01"; str "41m"; reading_of "10" "C"]
  = OK [str "2024-01-01"; str "41m"; reading_of "10" "C"].
Proof.
  refine (proj2 (proj2 (proj2 (proj2
    (@invalid_targets_pass_through (str "K") (str "ft")
       (str "2024-01-01") (str "41m") (reading_of "10" "C")))))
    _ _ _ _ _ (str "10") (degree :: str "C") _);
    try (vm_compute; discriminate); vm_compute; reflexivity.
Defined.

(** ** The format of a converted field *)

Lemma uint_chars_digits (d : Decimal.uint) :
  forallb is_digit (uint_chars d) = true.
Proof. induction d; simpl; auto. Qed.

Lemma uint_chars_nonnil (d : Decimal.uint) :
  d <> Decimal.Nil -> uint_chars d <> [].
Proof. destruct d; simpl; congruence. Qed.

Lemma decimal_digits (n : N) : forallb is_digit (decimal n) = true.
Proof. apply uint_chars_digits. Qed.

Lemma decimal_nonempty (n : N) : decimal n <> [].
Proof.
  apply uint_chars_nonnil; destruct n as [|p]; simpl; [discriminate|].
  apply Unsigned.to_uint_nonnil.
Qed.

Lemma digit_char_digit (n : N) : is_digit (digit_char n) = true.
Proof.
  unfold is_digit, digit_char.
  assert (R : (n mod 10 < 10)%N) by (apply N.mod_lt; discriminate).
  revert R; generalize (n mod 10)%N; intros r R.
  apply andb_true_iff; split; apply N.leb_le; lia.
Qed.

Lemma digit_not_minus (c : char) : is_digit c = true -> char_eqb c 45%N = false.
Proof.
  unfold is_digit, char_eqb; intros D.
  apply andb_true_iff in D as [L _]; apply N.leb_le in L.
  apply N.eqb_neq; lia.
Qed.

Lemma fixed2_is_fixed2 (s : bool) (n : N) : is_fixed2 (fixed2 s n) = true.
Proof.
  unfold fixed2.
  pose proof (decimal_digits (n / 100)) as DG.
  pose proof (decimal_nonempty (n / 100)) as NE.
  set (ds := decimal (n / 100)) in *; clearbody ds.
  set (tl := [46%N; digit_char (n / 10); digit_char n]).
  assert (U : is_unsigned_fixed2 (ds ++ tl) = true).
  { assert (R : forallb is_digit (rev ds) = true).
    { apply forallb_forall; intros x I; apply in_rev in I.
      revert x I; apply forallb_forall; exact DG. }
    unfold is_unsigned_fixed2.
    rewrite rev_app_distr; simpl.
    rewrite !digit_char_digit, R, length_rev.
    destruct ds; [contradiction | reflexivity]. }
  destruct s; simpl.
  - exact U.
  - destruct ds as [|c ds']; [contradiction|].
    simpl in DG; apply andb_true_iff in DG as [Dc _].
    simpl; rewrite (digit_not_minus c Dc); exact U.
Qed.

(** A finite float is rendered with digits, a point and two decimals. *)
Lemma format_2f_finite (x : float) :
  is_finite x = true -> is_fixed2 (format_2f x) = true.
Proof.
  destruct x; simpl; try discriminate; intros _; apply fixed2_is_fixed2.
Qed.

(** C7, the claim as the spec has it, fails: the distance [infm] is
    converted to feet, the result is infinite, and the field written is
    [infft], which has no decimal digit. *)
Lemma converted_field_without_decimals :
  process_row (str "C") (str "f")
    [str "2024-01-01"; str "infm"; reading_of "10" "C"]
  = OK [str "2024-01-01"; str "infft"; reading_of "10" "C"]
  /\ is_fixed2 (str "inf") = false.
Proof. split; vm_compute; reflexivity. Qed.

(** C7, amended: a converted field is the converted number in the format
    [:.2f] followed at once by the suffix of the target: [m] or [ft] for a
    distance, the degree sign and [C] or [F] for a reading.  When the
    converted number is finite the format gives digits, a point and exactly
    two decimals; an infinite or undefined result has no digits ([inf],
    [nan]). *)
Theorem converted_field_format
    (tT tD distance reading dv du tv tu : pystr) (x : float) :
  (dist_to_m tD du = true -> float_of_str dv = Some x ->
   dist_suffix tD = Some (str "m")
   /\ convert_distance tD distance dv du
      = OK (format_2f (to_m x) ++ str "m"))
  /\ (dist_to_ft tD du = true -> float_of_str dv = Some x ->
      dist_suffix tD = Some (str "ft")
      /\ convert_distance tD distance dv du
         = OK (format_2f (to_ft x) ++ str "ft"))
  /\ (temp_to_C tT tu = true -> float_of_str tv = Some x ->
      temp_suffix tT = Some (degree :: str "C")
      /\ convert_temperature tT reading tv tu
         = OK (format_2f (to_C x) ++ degree :: str "C"))
  /\ (temp_to_F tT tu = true -> float_of_str tv = Some x ->
      temp_suffix tT = Some (degree :: str "F")
      /\ convert_temperature tT reading tv tu
         = OK (format_2f (to_F x) ++ degree :: str "F"))
  /\ (forall y : float,
        is_finite y = true -> is_fixed2 (format_2f y) = true).
Proof.
  split; [|split; [|split; [|split]]].
  - intros T F; pose proof T as T'.
    unfold dist_to_m in T'; apply andb_true_iff in T' as [E _].
    apply eqb_eq in E; subst tD; split; [reflexivity|].
    unfold convert_distance, float_; rewrite T, F; reflexivity.
  - intros T F; pose proof T as T'.
    unfold dist_to_ft in T'; apply andb_true_iff in T' as [E U].
    apply eqb_eq in E; apply eqb_eq in U; subst tD du; split; [reflexivity|].
    unfold convert_distance, float_; rewrite F; reflexivity.
  - intros T F; pose proof T as T'.
    unfold temp_to_C in T'; apply andb_true_iff in T' as [E _].
    apply eqb_eq in E; subst tT; split; [reflexivity|].
    unfold convert_temperature, float_; rewrite T, F; reflexivity.
  - intros T F; pose proof T as T'.
    unfold temp_to_F in T'; apply andb_true_iff in T' as [E _].
    apply eqb_eq in E; subst tT; split; [reflexivity|].
    unfold convert_temperature, float_; rewrite T, F; reflexivity.
  - intros y; apply format_2f_finite.
Qed.

Lemma converted_field_format_witness :
  convert_distance (str "f") (str "41m") (str "41") (str "m")
    = OK (str "134.51ft")
  /\ is_fixed2 (str "134.51") = true.
Proof.
  pose proof (@converted_field_format (str "F") (str "f") (str "41m")
                (reading_of "10" "C") (str "41") (str "m") (str "10")
                (degree :: str "C") (of_Z 41)) as (_ & FT & _ & _ & FX).
  split.
  - refine (proj2 (FT _ _)); vm_compute; reflexivity.
  - refine (FX (to_ft (of_Z 41)) _); vm_compute; reflexivity.
Defined.

(** ** Round trips of the conversion functions *)

(** C8, the claim as the spec has it, fails on floats: the round trip of
    0.1 °C gives 0.09999999999999984, and the round trip of
    1000000000000001 m gives 1000000000000001.125, further than 1e-6. *)
Lemma round_trip_not_exact_on_floats :
  float_of_str (str "0.1") = Some (S754_finite false 7205759403792794 (-56))
  /\ to_C (to_F (S754_finite false 7205759403792794 (-56)))
     = S754_finite false 7205759403792782 (-56)
  /\ to_C (to_F (S754_finite false 7205759403792794 (-56)))
     <> S754_finite false 7205759403792794 (-56)
  /\ to_m (to_ft (of_Z 1000000000000001))
     = of_decimal false 1000000000000001125 (-3)
  /\ within tolerance (to_m (to_ft (of_Z 1000000000000001)))
       (of_Z 1000000000000001) = false.
Proof.
  repeat split; try (vm_compute; reflexivity); vm_compute; discriminate.
Qed.

(** The round trips on floats are bounded by following the operations of
    [SpecFloat]: each of [fmul], [fdiv], [fadd] and [fsub] returns a finite
    float within [rho * |r| + 3 * eta] of its exact result [r], as long as
    [r] is far below the overflow threshold. *)

(** *** What [SpecFloat] computes, on integers *)

(** A positive number of [d] binary digits lies in [2^(d-1), 2^d). *)
Lemma digits2_pos_bounds (m : positive) :
  (2 ^ (Zpos (digits2_pos m) - 1) <= Zpos m < 2 ^ Zpos (digits2_pos m))%Z.
Proof.
  induction m as [m IH|m IH|]; cbn [digits2_pos]; [| |simpl; lia];
    rewrite Pos2Z.inj_succ;
    replace (Z.succ (Zpos (digits2_pos m)) - 1)%Z
      with (Z.succ (Zpos (digits2_pos m) - 1)) by lia;
    rewrite !Z.pow_succ_r by lia; lia.
Qed.

Lemma Zdigits2_nonneg (m : Z) : (0 <= Zdigits2 m)%Z.
Proof. destruct m; simpl; lia. Qed.

Lemma Zdigits2_bounds (m : Z) :
  (0 < m)%Z -> (2 ^ (Zdigits2 m - 1) <= m < 2 ^ Zdigits2 m)%Z.
Proof.
  destruct m as [|p|p]; try lia; intros _; apply digits2_pos_bounds.
Qed.

Lemma shr_1_m (mrs : shr_record) :
  (0 <= shr_m mrs)%Z -> shr_m (shr_1 mrs) = (shr_m mrs / 2)%Z.
Proof.
  destruct mrs as [m r s]; simpl; intros P.
  rewrite <- Z.div2_div.
  destruct m as [|[p|p|]|p]; try reflexivity; lia.
Qed.

(** Shifting right [n] times divides the mantissa by [2^n]. *)
Lemma iter_shr_1_m (n : positive) (mrs : shr_record) :
  (0 <= shr_m mrs)%Z ->
  shr_m (iter_pos shr_1 n mrs) = (shr_m mrs / 2 ^ Zpos n)%Z.
Proof.
  revert mrs; induction n as [n IH|n IH|]; intros mrs P; cbn [iter_pos].
  - assert (P1 : (0 <= shr_m (shr_1 mrs))%Z)
      by (rewrite shr_1_m by exact P; apply Z.div_pos; lia).
    assert (P2 : (0 <= shr_m (iter_pos shr_1 n (shr_1 mrs)))%Z)
      by (rewrite IH by exact P1; apply Z.div_pos; lia).
    rewrite IH by exact P2; rewrite IH by exact P1; rewrite shr_1_m by exact P.
    rewrite !Z.div_div by lia.
    f_equal; replace (Z.pos n~1) with (1 + Z.pos n + Z.pos n)%Z by lia.
    rewrite !Z.pow_add_r, Z.pow_1_r by lia; ring.
  - assert (P1 : (0 <= shr_m (iter_pos shr_1 n mrs))%Z)
      by (rewrite IH by exact P; apply Z.div_pos; lia).
    rewrite IH by exact P1; rewrite IH by exact P.
    rewrite Z.div_div by lia.
    f_equal; replace (Z.pos n~0) with (Z.pos n + Z.pos n)%Z by lia.
    rewrite Z.pow_add_r by lia; ring.
  - rewrite shr_1_m by exact P; reflexivity.
Qed.

Lemma loc_of_shr_record_of_loc (m : Z) (l : location) :
  loc_of_shr_record (shr_record_of_loc m l) = l.
Proof. destruct l as [|[| |]]; reflexivity. Qed.

Lemma shr_m_of_loc (m : Z) (l : location) : shr_m (shr_record_of_loc m l) = m.
Proof. destruct l as [|[| |]]; reflexivity. Qed.

(** Rounding to nearest keeps the mantissa or adds one to it. *)
Lemma round_nearest_even_bounds (m : Z) (l : location) :
  (m <= round_nearest_even m l <= m + 1)%Z.
Proof. destruct l as [|[| |]]; simpl; try destruct (Z.even m); lia. Qed.

Lemma fexp_eq (e : Z) : fexp prec emax e = Z.max (e - 53) (-1074).
Proof. reflexivity. Qed.

(** [shr_fexp] brings the mantissa to the exponent [fexp] asks for, by
    dividing it by a power of two. *)
Lemma shr_fexp_spec (m e : Z) (l : location) :
  (0 <= m)%Z ->
  exists mrs e',
    shr_fexp prec emax m e l = (mrs, e')
    /\ ((e' = e /\ shr_m mrs = m /\ loc_of_shr_record mrs = l)
        \/ ((e < e')%Z /\ e' = fexp prec emax (Zdigits2 m + e)
            /\ shr_m mrs = (m / 2 ^ (e' - e))%Z)).
Proof.
  intros P; unfold shr_fexp, shr.
  destruct (fexp prec emax (Zdigits2 m + e) - e)%Z as [|n|n] eqn:N.
  - eexists _, _; split; [reflexivity|]; left.
    rewrite shr_m_of_loc, loc_of_shr_record_of_loc; auto.
  - eexists _, _; split; [reflexivity|]; right.
    rewrite iter_shr_1_m by (rewrite shr_m_of_loc; exact P).
    rewrite shr_m_of_loc.
    replace (e + Z.pos n - e)%Z with (Z.pos n) by lia.
    repeat split; lia.
  - eexists _, _; split; [reflexivity|]; left.
    rewrite shr_m_of_loc, loc_of_shr_record_of_loc; auto.
Qed.

Lemma pow2_pos (k : Z) : (0 <= k)%Z -> (0 < 2 ^ k)%Z.
Proof. intros; apply Z.pow_pos_nonneg; lia. Qed.

(** What [binary_round_aux] computes, on integers. *)
Lemma binary_round_aux_spec (sx : bool) (mx ex : Z) (lx : location) :
  (0 <= mx)%Z ->
  exists m2 m3 e' e'',
    (ex <= e' <= e'')%Z /\ (0 <= m2)%Z /\ (0 <= m3)%Z
    /\ (mx / 2 ^ (e' - ex) <= m2 <= mx / 2 ^ (e' - ex) + 1)%Z
    /\ (e' = ex -> lx = loc_Exact -> m2 = mx)
    /\ (e' = ex \/ e' = fexp prec emax (Zdigits2 mx + ex))
    /\ m3 = (m2 / 2 ^ (e'' - e'))%Z
    /\ (e'' = e' \/ e'' = fexp prec emax (Zdigits2 m2 + e'))
    /\ binary_round_aux prec emax sx mx ex lx
       = match m3 with
         | Z0 => S754_zero sx
         | Zpos p =>
             if (e'' <=? emax - prec)%Z then S754_finite sx p e''
             else S754_infinity sx
         | Zneg _ => S754_nan
         end.
Proof.
  intros P; unfold binary_round_aux.
  destruct (shr_fexp_spec mx ex lx P) as (mrs1 & e' & -> & S1).
  pose proof (round_nearest_even_bounds (shr_m mrs1) (loc_of_shr_record mrs1))
    as B2.
  remember (round_nearest_even (shr_m mrs1) (loc_of_shr_record mrs1)) as m2
    eqn:Em2.
  assert (E1 : (ex <= e')%Z) by (destruct S1 as [(-> & _)|(L & _)]; lia).
  assert (M1 : shr_m mrs1 = (mx / 2 ^ (e' - ex))%Z).
  { destruct S1 as [(-> & -> & _)|(_ & _ & ->)]; [|reflexivity].
    rewrite Z.sub_diag, Z.pow_0_r, Z.div_1_r; reflexivity. }
  assert (P1 : (0 <= shr_m mrs1)%Z).
  { rewrite M1; apply Z.div_pos; [exact P | apply pow2_pos; lia]. }
  assert (P2 : (0 <= m2)%Z) by lia.
  destruct (shr_fexp_spec m2 e' loc_Exact P2) as (mrs2 & e'' & -> & S2).
  exists m2, (shr_m mrs2), e', e''.
  assert (E2 : (e' <= e'')%Z) by (destruct S2 as [(-> & _)|(L & _)]; lia).
  assert (M3 : shr_m mrs2 = (m2 / 2 ^ (e'' - e'))%Z).
  { destruct S2 as [(-> & -> & _)|(_ & _ & ->)]; [|reflexivity].
    rewrite Z.sub_diag, Z.pow_0_r, Z.div_1_r; reflexivity. }
  rewrite <- M1.
  repeat split; try lia.
  - rewrite M3; apply Z.div_pos; [exact P2 | apply pow2_pos; lia].
  - intros Ee ->.
    destruct S1 as [(_ & Em & El)|(L & _)]; [|lia].
    rewrite Em2, El, Em; reflexivity.
Qed.

(** *** Powers of two as rationals *)

Open Scope Q_scope.

Lemma P2_pos (e : Z) : 0 < P2 e.
Proof. apply Qpower_0_lt; reflexivity. Qed.

Lemma P2_add (a b : Z) : P2 (a + b) == P2 a * P2 b.
Proof. apply Qpower_plus; discriminate. Qed.

Lemma P2_Z (n : Z) : (0 <= n)%Z -> inject_Z (2 ^ n) == P2 n.
Proof. intros; apply Zpower_Qpower; assumption. Qed.

Lemma P2_le (a b : Z) : (a <= b)%Z -> P2 a <= P2 b.
Proof. intros; apply Qpower_le_compat_l; [assumption | discriminate]. Qed.

Lemma P2_le_inv (a b : Z) : P2 a <= P2 b -> (a <= b)%Z.
Proof. intros H; apply (Qpower_le_compat_l_inv _ _ _ H); reflexivity. Qed.

(** Dropping the [k] low bits of [m]: the quotient brackets [m]. *)
Lemma shift_brackets (m e k : Z) :
  (0 <= m)%Z -> (0 <= k)%Z ->
  inject_Z (m / 2 ^ k) * P2 (e + k) <= inject_Z m * P2 e
  /\ (inject_Z m + 1) * P2 e <= (inject_Z (m / 2 ^ k) + 1) * P2 (e + k).
Proof.
  intros M K.
  pose proof (pow2_pos k K) as PK.
  pose proof (Z.mul_div_le m (2 ^ k) PK) as L.
  pose proof (Z.mul_succ_div_gt m (2 ^ k) PK) as U.
  set (q := (m / 2 ^ k)%Z) in *.
  assert (L' : inject_Z q * P2 k <= inject_Z m).
  { rewrite <- P2_Z, <- inject_Z_mult by exact K.
    rewrite <- Zle_Qle; lia. }
  assert (U' : inject_Z m + 1 <= (inject_Z q + 1) * P2 k).
  { rewrite <- P2_Z by exact K.
    change 1 with (inject_Z 1); rewrite <- !inject_Z_plus, <- inject_Z_mult.
    rewrite <- Zle_Qle; lia. }
  pose proof (P2_pos e) as PE.
  rewrite P2_add.
  split.
  - setoid_replace (inject_Z q * (P2 e * P2 k))
      with ((inject_Z q * P2 k) * P2 e) by ring.
    apply Qmult_le_compat_r; [exact L' | apply Qlt_le_weak, PE].
  - setoid_replace ((inject_Z q + 1) * (P2 e * P2 k))
      with (((inject_Z q + 1) * P2 k) * P2 e) by ring.
    apply Qmult_le_compat_r; [exact U' | apply Qlt_le_weak, PE].
Qed.

(** The exponent a shift stops at is small against the value shifted. *)
Lemma fexp_bound (m e : Z) :
  (0 <= m)%Z -> (e < fexp prec emax (Zdigits2 m + e))%Z ->
  P2 (fexp prec emax (Zdigits2 m + e)) <= u52 * (inject_Z m * P2 e) + eta.
Proof.
  intros M; rewrite fexp_eq; intros L.
  pose proof (P2_pos e) as PE.
  assert (NN : 0 <= u52 * (inject_Z m * P2 e)).
  { apply Qmult_le_0_compat; [apply Qlt_le_weak, P2_pos|].
    apply Qmult_le_0_compat; [|apply Qlt_le_weak, PE].
    change 0 with (inject_Z 0); rewrite <- Zle_Qle; exact M. }
  destruct (Z.max_spec (Zdigits2 m + e - 53) (-1074)) as [(_ & E)|(G & E)];
    rewrite E in *.
  - unfold eta; lra.
  - assert (MP : (0 < m)%Z).
    { destruct (Z.eq_dec m 0) as [->|]; [simpl in *; lia | lia]. }
    pose proof (Zdigits2_bounds m MP) as (DL & _).
    assert (D1 : (0 <= Zdigits2 m - 1)%Z).
    { destruct m as [|p|p]; try lia; cbn [Zdigits2]; lia. }
    replace (Zdigits2 m + e - 53)%Z
      with ((Zdigits2 m - 1) + e + (-52))%Z by lia.
    rewrite !P2_add, <- P2_Z by exact D1.
    fold u52.
    assert (I : inject_Z (2 ^ (Zdigits2 m - 1)) <= inject_Z m)
      by (rewrite <- Zle_Qle; exact DL).
    assert (inject_Z (2 ^ (Zdigits2 m - 1)) * P2 e <= inject_Z m * P2 e)
      by (apply Qmult_le_compat_r; [exact I | apply Qlt_le_weak, PE]).
    assert (UP : 0 < u52) by apply P2_pos.
    assert (EP : 0 < eta) by apply P2_pos.
    nra.
Qed.

(** The value of a finite float: sign, mantissa and exponent. *)
Lemma value_finite (s : bool) (m : positive) (e : Z) :
  value (S754_finite s m e) == sgn s (inject_Z (Zpos m) * P2 e).
Proof.
  unfold value, sgn, P2; simpl; destruct s; [|reflexivity].
  change (Z.neg m) with (- Z.pos m)%Z; rewrite inject_Z_opp; ring.
Qed.

Lemma small_constants :
  0 < u52 /\ u52 <= 1 # 4000000000000000 /\ 0 < eta /\ eta <= u52
  /\ P2 100 + P2 100 + 1 <= P2 200.
Proof.
  repeat split; try apply P2_pos; vm_compute; discriminate.
Qed.

(** The rounding of [binary_round_aux]: the float it returns for a number
    [r] it is given by a mantissa, an exponent and a location is finite and
    within [rho * r + 3 * eta] of [r]. *)
Lemma binary_round_aux_error (sx : bool) (mx ex : Z) (lx : location) (r : Q) :
  (0 <= mx)%Z ->
  inject_Z mx * P2 ex <= r ->
  r <= (inject_Z mx + 1) * P2 ex ->
  (lx = loc_Exact -> r == inject_Z mx * P2 ex) ->
  (lx <> loc_Exact -> P2 ex <= u52 * r + eta) ->
  r <= P2 100 ->
  exists a,
    0 <= a /\ Qabs (a - r) <= rho * r + 3 * eta
    /\ is_finite (binary_round_aux prec emax sx mx ex lx) = true
    /\ value (binary_round_aux prec emax sx mx ex lx) == sgn sx a.
Proof.
  intros M RL RU EX IN RB.
  destruct (binary_round_aux_spec sx mx ex lx M)
    as (m2 & m3 & e' & e'' & (E1 & E2) & P2' & P3 & B2 & X2 & S1 & M3 & S2 & ->).
  destruct small_constants as (UP & US & EP & EU & BIG).
  assert (R0 : 0 <= r).
  { apply Qle_trans with (inject_Z mx * P2 ex); [|exact RL].
    apply Qmult_le_0_compat; [|apply Qlt_le_weak, P2_pos].
    change 0 with (inject_Z 0); rewrite <- Zle_Qle; exact M. }
  (* stage 1 *)
  destruct (shift_brackets mx ex (e' - ex) M ltac:(lia)) as (L1 & U1).
  replace (ex + (e' - ex))%Z with e' in L1, U1 by lia.
  set (m1 := (mx / 2 ^ (e' - ex))%Z) in *.
  pose proof (P2_pos e') as PE'.
  assert (I2 : inject_Z m1 <= inject_Z m2 <= inject_Z m1 + 1).
  { change 1 with (inject_Z 1); rewrite <- inject_Z_plus, <- !Zle_Qle; lia. }
  assert (A2 : inject_Z m1 * P2 e' <= inject_Z m2 * P2 e'
               /\ inject_Z m2 * P2 e' <= (inject_Z m1 + 1) * P2 e').
  { split; apply Qmult_le_compat_r; try (apply Qlt_le_weak, PE'); tauto. }
  set (M2 := inject_Z m2 * P2 e') in *.
  assert (D1 : Qabs (M2 - r) <= u52 * r + eta).
  { apply Qabs_Qle_condition.
    destruct (Z.eq_dec e' ex) as [Ee|Ne].
    - destruct lx as [|c] eqn:LX.
      + assert (M2 == r) as ->; [|split; nra].
        unfold M2; rewrite (X2 Ee eq_refl), Ee; symmetry; apply EX.
        reflexivity.
      + assert (IB : P2 ex <= u52 * r + eta) by (apply IN; discriminate).
        rewrite Ee in *; split; nra.
    - assert (FB : P2 e' <= u52 * (inject_Z mx * P2 ex) + eta).
      { destruct S1 as [Eq|Eq]; [contradiction|].
        rewrite Eq; apply fexp_bound; [exact M | rewrite <- Eq; lia]. }
      split; nra. }
  (* stage 2 *)
  destruct (shift_brackets m2 e' (e'' - e') P2' ltac:(lia)) as (L3 & U3).
  replace (e' + (e'' - e'))%Z with e'' in L3, U3 by lia.
  rewrite <- M3 in L3, U3; fold M2 in L3.
  pose proof (P2_pos e'') as PE''.
  set (M3q := inject_Z m3 * P2 e'') in *.
  assert (M20 : 0 <= M2).
  { apply Qmult_le_0_compat; [|apply Qlt_le_weak, PE'].
    change 0 with (inject_Z 0); rewrite <- Zle_Qle; exact P2'. }
  assert (D2 : M2 - (u52 * M2 + eta) <= M3q <= M2).
  { split; [|exact L3].
    destruct (Z.eq_dec e'' e') as [Ee|Ne].
    - assert (m3 = m2) as E32.
      { rewrite M3, Ee, Z.sub_diag, Z.pow_0_r, Z.div_1_r; reflexivity. }
      assert (M3q == M2) as ->
        by (unfold M3q, M2; rewrite E32, Ee; reflexivity).
      assert (0 <= u52 * M2)
        by (apply Qmult_le_0_compat; [apply Qlt_le_weak, UP | exact M20]).
      lra.
    - assert (FB : P2 e'' <= u52 * M2 + eta).
      { destruct S2 as [Eq|Eq]; [contradiction|].
        rewrite Eq; apply fexp_bound; [exact P2' | rewrite <- Eq; lia]. }
      unfold M3q in *; nra. }
  assert (M30 : 0 <= M3q).
  { apply Qmult_le_0_compat; [|apply Qlt_le_weak, PE''].
    change 0 with (inject_Z 0); rewrite <- Zle_Qle; exact P3. }
  apply Qabs_Qle_condition in D1.
  exists M3q; split; [exact M30|]; split.
  { apply Qabs_Qle_condition; unfold rho; split; nra. }
  destruct m3 as [|p|p]; [| |lia].
  - split; [reflexivity|].
    unfold M3q, value, sgn; simpl; destruct sx; ring.
  - assert (EF : (e'' <= emax - prec)%Z).
    { assert (P2 e'' <= P2 200); [|apply P2_le_inv in H; unfold emax, prec; lia].
      assert (P2 e'' <= M3q).
      { unfold M3q.
        assert (1 <= inject_Z (Z.pos p))
          by (change 1 with (inject_Z 1); rewrite <- Zle_Qle; lia).
        nra. }
      nra. }
    apply Z.leb_le in EF; rewrite EF; split; [reflexivity|].
    apply value_finite.
Qed.

Lemma sgn_diff (s : bool) (a r : Q) : Qabs (sgn s a - sgn s r) == Qabs (a - r).
Proof.
  destruct s; unfold sgn; [|reflexivity].
  setoid_replace (- a - - r) with (- (a - r)) by ring; apply Qabs_opp.
Qed.

Lemma sgn_abs (s : bool) (r : Q) : 0 <= r -> Qabs (sgn s r) == r.
Proof.
  intros R; destruct s; unfold sgn; [rewrite Qabs_opp|]; apply Qabs_pos, R.
Qed.

Lemma sgn_mul (s t : bool) (a b : Q) :
  sgn s a * sgn t b == sgn (xorb s t) (a * b).
Proof. destruct s, t; unfold sgn, xorb; ring. Qed.

Lemma mag_nonneg (m : positive) (e : Z) : 0 <= inject_Z (Zpos m) * P2 e.
Proof.
  apply Qmult_le_0_compat; [|apply Qlt_le_weak, P2_pos].
  change 0 with (inject_Z 0); rewrite <- Zle_Qle; lia.
Qed.

Lemma value_zero (x : float) :
  is_finite x = true -> (forall s m e, x <> S754_finite s m e) -> value x == 0.
Proof.
  destruct x as [s|s| |s m e]; try discriminate; intros _ N;
    [reflexivity | destruct (N s m e eq_refl)].
Qed.

(** A finite float rounds the number it is. *)
Lemma rounds_to_exact (z : float) (v : Q) :
  is_finite z = true -> value z == v -> rounds_to z v.
Proof.
  intros F E; split; [exact F|].
  destruct small_constants as (UP & _ & EP & _).
  setoid_replace (value z - v) with 0 by (rewrite E; ring).
  pose proof (Qabs_nonneg v).
  assert (0 <= rho * Qabs v).
  { apply Qmult_le_0_compat; [unfold rho; nra | assumption]. }
  change (Qabs 0) with 0; lra.
Qed.

(** [binary_round_aux] rounds the number it is given by a mantissa, an
    exponent and a location. *)
Lemma rounds_to_aux (sx : bool) (mx ex : Z) (lx : location) (r v : Q) :
  (0 <= mx)%Z ->
  inject_Z mx * P2 ex <= r ->
  r <= (inject_Z mx + 1) * P2 ex ->
  (lx = loc_Exact -> r == inject_Z mx * P2 ex) ->
  (lx <> loc_Exact -> P2 ex <= u52 * r + eta) ->
  r <= P2 100 ->
  v == sgn sx r ->
  rounds_to (binary_round_aux prec emax sx mx ex lx) v.
Proof.
  intros M RL RU EX IN RB V.
  destruct (binary_round_aux_error sx mx ex lx r M RL RU EX IN RB)
    as (a & A0 & AE & F & VA).
  assert (R0 : 0 <= r).
  { apply Qle_trans with (inject_Z mx * P2 ex); [|exact RL].
    apply Qmult_le_0_compat; [|apply Qlt_le_weak, P2_pos].
    change 0 with (inject_Z 0); rewrite <- Zle_Qle; exact M. }
  split; [exact F|].
  rewrite VA, V, sgn_diff, (sgn_abs sx r R0); exact AE.
Qed.

Lemma rounds_to_ext (z : float) (v v' : Q) :
  v == v' -> rounds_to z v -> rounds_to z v'.
Proof.
  intros E (F & B); split; [exact F|].
  rewrite <- E; exact B.
Qed.

(** *** Multiplication *)

(** [x * y] on floats rounds the exact product. *)
Lemma fmul_rounds (x y : float) :
  is_finite x = true -> is_finite y = true ->
  Qabs (value x * value y) <= P2 100 ->
  rounds_to (fmul x y) (value x * value y).
Proof.
  intros FX FY B.
  destruct x as [sx|sx| |sx mx ex]; try discriminate;
    destruct y as [sy|sy| |sy my ey]; try discriminate;
    try (apply rounds_to_exact; [reflexivity|];
         unfold value; simpl; ring).
  unfold fmul, SFmul.
  set (r := inject_Z (Z.pos mx) * P2 ex * (inject_Z (Z.pos my) * P2 ey)).
  assert (V : value (S754_finite sx mx ex) * value (S754_finite sy my ey)
              == sgn (xorb sx sy) r).
  { rewrite !value_finite, sgn_mul; reflexivity. }
  assert (R0 : 0 <= r).
  { apply Qmult_le_0_compat; apply mag_nonneg. }
  assert (E : r == inject_Z (Z.pos (mx * my)) * P2 (ex + ey)).
  { unfold r; rewrite Pos2Z.inj_mul, inject_Z_mult, P2_add; ring. }
  rewrite V, (sgn_abs _ r R0) in B.
  apply (rounds_to_ext _ (sgn (xorb sx sy) r)); [symmetry; exact V|].
  pose proof (P2_pos (ex + ey)).
  apply (rounds_to_aux _ _ _ _ r); try lia.
  - rewrite <- E; apply Qle_refl.
  - setoid_replace ((inject_Z (Z.pos (mx * my)) + 1) * P2 (ex + ey))
      with (inject_Z (Z.pos (mx * my)) * P2 (ex + ey) + P2 (ex + ey)) by ring.
    rewrite <- E; lra.
  - intros _; exact E.
  - intros N; destruct (N eq_refl).
  - exact B.
  - reflexivity.
Qed.

(** *** Addition and subtraction *)

Lemma pos_iter_xO (m d : positive) :
  Zpos (Pos.iter xO m d) = (Zpos m * 2 ^ Zpos d)%Z.
Proof.
  induction d as [|d IH] using Pos.peano_ind.
  - simpl; lia.
  - rewrite Pos.iter_succ, Pos2Z.inj_xO, IH, Pos2Z.inj_succ, Z.pow_succ_r by lia.
    ring.
Qed.

Lemma shl_align_fst (m : positive) (e t : Z) :
  (t <= e)%Z -> Zpos (fst (shl_align m e t)) = (Zpos m * 2 ^ (e - t))%Z.
Proof.
  intros L; unfold shl_align.
  destruct (t - e)%Z as [|d|d] eqn:D; try lia; cbn [fst].
  - replace (e - t)%Z with 0%Z by lia; rewrite Z.pow_0_r; lia.
  - replace (e - t)%Z with (Z.pos d) by lia; apply pos_iter_xO.
Qed.

(** Aligning a mantissa to a smaller exponent keeps the value. *)
Lemma shl_align_value (m : positive) (e t : Z) :
  inject_Z (Zpos (fst (shl_align m e t))) * P2 (snd (shl_align m e t))
  == inject_Z (Zpos m) * P2 e.
Proof.
  unfold shl_align.
  destruct (t - e)%Z as [|d|d] eqn:D; cbn [fst snd]; try reflexivity.
  assert (E : P2 e == P2 (Z.pos d) * P2 t).
  { rewrite <- P2_add; replace (Z.pos d + t)%Z with e by lia; reflexivity. }
  rewrite pos_iter_xO, inject_Z_mult, P2_Z, E by lia; ring.
Qed.

Lemma binary_round_rounds (sx : bool) (mx : positive) (ex : Z) (v : Q) :
  inject_Z (Zpos mx) * P2 ex <= P2 100 ->
  v == sgn sx (inject_Z (Zpos mx) * P2 ex) ->
  rounds_to (binary_round prec emax sx mx ex) v.
Proof.
  intros B V; unfold binary_round.
  pose proof (shl_align_value mx ex
                (fexp prec emax (Z.pos (digits2_pos mx) + ex))) as E.
  destruct (shl_align mx ex (fexp prec emax (Z.pos (digits2_pos mx) + ex)))
    as (mz, ez); simpl in E.
  pose proof (P2_pos ez).
  apply (rounds_to_aux _ _ _ _ (inject_Z (Z.pos mx) * P2 ex)); try lia.
  - rewrite E; apply Qle_refl.
  - setoid_replace ((inject_Z (Z.pos mz) + 1) * P2 ez)
      with (inject_Z (Z.pos mz) * P2 ez + P2 ez) by ring.
    rewrite E; lra.
  - intros _; symmetry; exact E.
  - intros N; destruct (N eq_refl).
  - exact B.
  - exact V.
Qed.

(** [binary_normalize] rounds the integer [m * 2^e] it is given. *)
Lemma binary_normalize_rounds (m e : Z) (sz : bool) :
  Qabs (inject_Z m * P2 e) <= P2 100 ->
  rounds_to (binary_normalize prec emax m e sz) (inject_Z m * P2 e).
Proof.
  intros B; destruct m as [|p|p]; simpl.
  - apply rounds_to_exact; [reflexivity | unfold value; simpl; ring].
  - rewrite Qabs_pos in B by apply mag_nonneg.
    apply binary_round_rounds; [exact B | reflexivity].
  - assert (E : inject_Z (Z.neg p) * P2 e
                == sgn true (inject_Z (Z.pos p) * P2 e)).
    { unfold sgn; change (Z.neg p) with (- Z.pos p)%Z.
      rewrite inject_Z_opp; ring. }
    rewrite E, (sgn_abs true _ (mag_nonneg p e)) in B.
    apply binary_round_rounds; [exact B | exact E].
Qed.

Lemma aligned_value (s : bool) (m : positive) (e t : Z) :
  (t <= e)%Z ->
  inject_Z (cond_Zopp s (Zpos (fst (shl_align m e t)))) * P2 t
  == value (S754_finite s m e).
Proof.
  intros L; rewrite value_finite, (shl_align_fst m e t L).
  assert (E : P2 e == inject_Z (2 ^ (e - t)) * P2 t).
  { rewrite P2_Z, <- P2_add by lia.
    replace (e - t + t)%Z with e by lia; reflexivity. }
  destruct s; unfold sgn, cond_Zopp;
    rewrite ?inject_Z_opp, inject_Z_mult, E; ring.
Qed.

(** [x + y] on floats rounds the exact sum. *)
Lemma fadd_rounds (x y : float) :
  is_finite x = true -> is_finite y = true ->
  Qabs (value x + value y) <= P2 100 ->
  rounds_to (fadd x y) (value x + value y).
Proof.
  intros FX FY B.
  destruct x as [sx|sx| |sx mx ex]; try discriminate;
    destruct y as [sy|sy| |sy my ey]; try discriminate.
  - apply rounds_to_exact; [destruct sx, sy; reflexivity|].
    destruct sx, sy; unfold value; simpl; ring.
  - apply rounds_to_exact; [reflexivity|].
    unfold fadd; simpl; change (value (S754_zero sx)) with 0; ring.
  - apply rounds_to_exact; [reflexivity|].
    unfold fadd; simpl; change (value (S754_zero sy)) with 0; ring.
  - unfold fadd, SFadd.
    set (ez := Z.min ex ey).
    assert (E : inject_Z (cond_Zopp sx (Z.pos (fst (shl_align mx ex ez)))
                          + cond_Zopp sy (Z.pos (fst (shl_align my ey ez))))
                * P2 ez
                == value (S754_finite sx mx ex) + value (S754_finite sy my ey)).
    { rewrite inject_Z_plus, Qmult_plus_distr_l.
      rewrite !aligned_value by (unfold ez; lia); reflexivity. }
    apply (rounds_to_ext _ _ _ E).
    apply binary_normalize_rounds; rewrite E; exact B.
Qed.

(** [x - y] on floats rounds the exact difference. *)
Lemma fsub_rounds (x y : float) :
  is_finite x = true -> is_finite y = true ->
  Qabs (value x - value y) <= P2 100 ->
  rounds_to (fsub x y) (value x - value y).
Proof.
  intros FX FY B.
  destruct x as [sx|sx| |sx mx ex]; try discriminate;
    destruct y as [sy|sy| |sy my ey]; try discriminate.
  - apply rounds_to_exact; [destruct sx, sy; reflexivity|].
    destruct sx, sy; unfold value; simpl; ring.
  - apply rounds_to_exact; [reflexivity|].
    unfold fsub, SFsub; change (value (S754_zero sx)) with 0.
    rewrite !value_finite; destruct sy; unfold sgn, negb; ring.
  - apply rounds_to_exact; [reflexivity|].
    unfold fsub; simpl; change (value (S754_zero sy)) with 0; ring.
  - unfold fsub, SFsub.
    set (ez := Z.min ex ey).
    assert (E : inject_Z (cond_Zopp sx (Z.pos (fst (shl_align mx ex ez)))
                          - cond_Zopp sy (Z.pos (fst (shl_align my ey ez))))
                * P2 ez
                == value (S754_finite sx mx ex) - value (S754_finite sy my ey)).
    { unfold Z.sub; rewrite inject_Z_plus, inject_Z_opp.
      setoid_replace
        ((inject_Z (cond_Zopp sx (Z.pos (fst (shl_align mx ex ez))))
          + - inject_Z (cond_Zopp sy (Z.pos (fst (shl_align my ey ez)))))
         * P2 ez)
        with (inject_Z (cond_Zopp sx (Z.pos (fst (shl_align mx ex ez))))
                * P2 ez
              - inject_Z (cond_Zopp sy (Z.pos (fst (shl_align my ey ez))))
                * P2 ez) by ring.
      rewrite !aligned_value by (unfold ez; lia); reflexivity. }
    apply (rounds_to_ext _ _ _ E).
    apply binary_normalize_rounds; rewrite E; exact B.
Qed.

(** *** Division *)

(** A division is exact only when its remainder is 0. *)
Lemma new_location_exact (nb k : Z) :
  new_location nb k = loc_Exact -> k = 0%Z.
Proof.
  unfold new_location, new_location_even, new_location_odd.
  destruct (Z.even nb); destruct (Z.eqb_spec k 0); auto; discriminate.
Qed.

Lemma P2_opp (a : Z) : P2 (- a) == / P2 a.
Proof. apply Qpower_opp. Qed.

(** [x / y] on floats, for a finite [y] other than 0, rounds the exact
    quotient. *)
Lemma fdiv_rounds (x : float) (sy : bool) (my : positive) (ey : Z) :
  is_finite x = true ->
  Qabs (value x / value (S754_finite sy my ey)) <= P2 100 ->
  rounds_to (fdiv x (S754_finite sy my ey))
    (value x / value (S754_finite sy my ey)).
Proof.
  intros FX B.
  destruct x as [sx|sx| |sx mx ex]; try discriminate.
  { apply rounds_to_exact; [reflexivity|].
    change (value (S754_zero sx)) with 0.
    unfold fdiv; simpl; change (value (S754_zero (xorb sx sy))) with 0.
    unfold Qdiv; ring. }
  set (A := inject_Z (Z.pos mx)) in *.
  set (Bq := inject_Z (Z.pos my)) in *.
  assert (A1 : 1 <= A)
    by (unfold A; change 1 with (inject_Z 1); rewrite <- Zle_Qle; lia).
  assert (B1 : 1 <= Bq)
    by (unfold Bq; change 1 with (inject_Z 1); rewrite <- Zle_Qle; lia).
  assert (B0 : ~ Bq == 0) by (intros H; rewrite H in B1; discriminate).
  pose proof (P2_pos ex) as PX; pose proof (P2_pos ey) as PY.
  assert (PY0 : ~ P2 ey == 0) by (intros H; rewrite H in PY; discriminate).
  set (R := (A * P2 ex) / (Bq * P2 ey)).
  assert (V : value (S754_finite sx mx ex) / value (S754_finite sy my ey)
              == sgn (xorb sx sy) R).
  { rewrite !value_finite; fold A Bq; unfold R.
    destruct sx, sy; unfold sgn, xorb; field; auto. }
  assert (iB : 0 < / Bq) by (apply Qinv_lt_0_compat; lra).
  assert (iY : 0 < / P2 ey) by (apply Qinv_lt_0_compat; exact PY).
  assert (R0 : 0 <= R).
  { unfold R, Qdiv; rewrite Qinv_mult_distr.
    repeat apply Qmult_le_0_compat; lra. }
  rewrite V, (sgn_abs _ R R0) in B.
  apply (rounds_to_ext _ (sgn (xorb sx sy) R)); [symmetry; exact V|].
  unfold fdiv, SFdiv, SFdiv_core_binary.
  set (d1 := Zdigits2 (Z.pos mx)); set (d2 := Zdigits2 (Z.pos my)).
  set (e' := Z.min (fexp prec emax (d1 + ex - (d2 + ey))) (ex - ey)).
  set (s := (ex - ey - e')%Z).
  assert (S0 : (0 <= s)%Z) by (unfold s, e'; lia).
  set (m' := match s with
             | 0%Z => Z.pos mx
             | Z.pos _ => Z.shiftl (Z.pos mx) s
             | Z.neg _ => 0%Z
             end).
  assert (Em' : m' = (Z.pos mx * 2 ^ s)%Z).
  { unfold m'; destruct s as [|p|p] eqn:Es.
    - rewrite Z.pow_0_r; lia.
    - apply Z.shiftl_mul_pow2; lia.
    - lia. }
  clearbody m'.
  pose proof (Z_div_mod m' (Z.pos my) ltac:(lia)) as DM.
  destruct (Z.div_eucl m' (Z.pos my)) as (q, rem).
  destruct DM as (DM & RB).
  assert (Q0 : (0 <= q)%Z).
  { assert (0 <= m')%Z by (rewrite Em'; pose proof (pow2_pos s S0); nia).
    nia. }
  (* the quotient as a rational *)
  assert (QM : inject_Z m' == A * P2 s).
  { rewrite Em', inject_Z_mult, P2_Z by exact S0; reflexivity. }
  assert (PXe : P2 ex == P2 ey * P2 e' * P2 s).
  { rewrite <- !P2_add; replace (ey + e' + s)%Z with ex by (unfold s; lia).
    reflexivity. }
  assert (RE : R == inject_Z m' * / Bq * P2 e').
  { unfold R; rewrite QM, PXe; field; auto. }
  pose proof (P2_pos e') as PE'.
  assert (QL : inject_Z q <= inject_Z m' * / Bq).
  { apply Qle_shift_div_l; [lra|].
    unfold Bq; rewrite <- inject_Z_mult, <- Zle_Qle; nia. }
  assert (QU : inject_Z m' * / Bq <= inject_Z q + 1).
  { apply Qle_shift_div_r; [lra|].
    unfold Bq; change 1 with (inject_Z 1).
    rewrite <- inject_Z_plus, <- inject_Z_mult, <- Zle_Qle; nia. }
  apply (rounds_to_aux _ _ _ _ R); try exact Q0; try exact B;
    try reflexivity.
  - rewrite RE; apply Qmult_le_compat_r; [exact QL | lra].
  - rewrite RE; apply Qmult_le_compat_r; [exact QU | lra].
  - intros L; apply new_location_exact in L; subst rem.
    rewrite RE.
    assert (inject_Z m' == inject_Z q * Bq) as ->.
    { unfold Bq; rewrite <- inject_Z_mult; apply inject_Z_injective; lia. }
    field; auto.
  - intros _.
    destruct small_constants as (UP & _ & EP & _).
    assert (UR : 0 <= u52 * R) by (apply Qmult_le_0_compat; lra).
    apply Qle_trans with (P2 (fexp prec emax (d1 + ex - (d2 + ey)))).
    { apply P2_le; unfold e'; lia. }
    rewrite fexp_eq.
    destruct (Z.max_spec (d1 + ex - (d2 + ey) - 53) (-1074))
      as [(_ & ->)|(_ & ->)]; [unfold eta; lra|].
    pose proof (Zdigits2_bounds (Z.pos mx) ltac:(lia)) as (DL1 & _).
    pose proof (Zdigits2_bounds (Z.pos my) ltac:(lia)) as (_ & DU2).
    fold d1 in DL1; fold d2 in DU2.
    assert (D1 : (0 <= d1 - 1)%Z) by (unfold d1, Zdigits2; lia).
    assert (D2 : (0 <= d2)%Z) by (unfold d2, Zdigits2; lia).
    replace (d1 + ex - (d2 + ey) - 53)%Z
      with ((d1 - 1) + (- d2) + ex + (- ey) + (-52))%Z by lia.
    rewrite !P2_add, !P2_opp; fold u52.
    assert (I1 : P2 (d1 - 1) <= A).
    { rewrite <- P2_Z by exact D1; unfold A; rewrite <- Zle_Qle; exact DL1. }
    assert (I2 : Bq <= P2 d2).
    { rewrite <- P2_Z by exact D2; unfold Bq; rewrite <- Zle_Qle; lia. }
    pose proof (P2_pos (d1 - 1)) as P1; pose proof (P2_pos d2) as PD2.
    assert (iD : 0 < / P2 d2) by (apply Qinv_lt_0_compat; exact PD2).
    assert (I3 : / P2 d2 <= / Bq).
    { apply Qle_shift_inv_l; [lra|].
      assert (E1 : / P2 d2 * P2 d2 == 1) by (field; lra).
      rewrite <- E1.
      apply (proj2 (Qmult_le_l _ _ _ iD)); exact I2. }
    assert (I4 : P2 (d1 - 1) * / P2 d2 <= A * / Bq).
    { apply Qmult_le_compat_nonneg; split; lra. }
    assert (RR : R == (A * / Bq) * (P2 ex * / P2 ey)).
    { unfold R; field; auto. }
    assert (PP : 0 < P2 ex * / P2 ey) by (apply Qmult_lt_0_compat; lra).
    assert (I5 : (P2 (d1 - 1) * / P2 d2) * (P2 ex * / P2 ey)
                 <= (A * / Bq) * (P2 ex * / P2 ey)).
    { apply Qmult_le_compat_r; [exact I4 | lra]. }
    rewrite RR.
    setoid_replace (P2 (d1 - 1) * / P2 d2 * P2 ex * / P2 ey * u52)
      with (u52 * ((P2 (d1 - 1) * / P2 d2) * (P2 ex * / P2 ey))) by ring.
    assert (u52 * ((P2 (d1 - 1) * / P2 d2) * (P2 ex * / P2 ey))
            <= u52 * ((A * / Bq) * (P2 ex * / P2 ey))).
    { apply Qmult_le_l; [exact UP | exact I5]. }
    lra.
Qed.

(** *** The round trips *)

(** The constants as decimal numbers. *)
Lemma rho_bounds :
  0 < rho /\ rho <= 445 # 1000000000000000000
  /\ 0 < eta /\ eta <= 1 # 1000000000000000000000000000000
  /\ 1000000000000 <= P2 100.
Proof.
  repeat split; try apply P2_pos; vm_compute; discriminate.
Qed.

Lemma Q_of_float_finite (x : float) :
  is_finite x = true -> Q_of_float x = Some (value x).
Proof. destruct x; try discriminate; reflexivity. Qed.

(** [within] on two finite floats compares their values. *)
Lemma within_finite (tol : Q) (x y : float) :
  is_finite x = true -> is_finite y = true ->
  Qabs (value x - value y) <= tol -> within tol x y = true.
Proof.
  intros FX FY B; unfold within.
  rewrite (Q_of_float_finite x FX), (Q_of_float_finite y FY).
  apply Qle_bool_iff; exact B.
Qed.

(** What an operation that rounds gives, for a result known to be at most
    [M] in magnitude. *)
Lemma rounds_to_interval (z : float) (r M : Q) :
  rounds_to z r -> - M <= r <= M ->
  is_finite z = true
  /\ r - (rho * M + 3 * eta) <= value z <= r + (rho * M + 3 * eta).
Proof.
  intros (F & E) B; split; [exact F|].
  apply Qabs_Qle_condition in B.
  destruct rho_bounds as (R0 & _).
  assert (rho * Qabs r <= rho * M)
    by (apply Qmult_le_l; [exact R0 | exact B]).
  assert (E' : Qabs (value z - r) <= rho * M + 3 * eta) by lra.
  apply Qabs_Qle_condition in E'; lra.
Qed.

Lemma big_enough (r M : Q) :
  - M <= r <= M -> M <= 1000000000000 -> Qabs r <= P2 100.
Proof.
  intros B L; destruct rho_bounds as (_ & _ & _ & _ & P).
  apply Qabs_Qle_condition; lra.
Qed.

(** The four operations in the shape the round trips use them: an operand
    of known value [vy], a result of magnitude at most [M]. *)
Lemma fmul_step (x y : float) (vy M : Q) :
  is_finite x = true -> is_finite y = true -> value y == vy ->
  - M <= value x * vy <= M -> M <= 1000000000000 ->
  is_finite (fmul x y) = true
  /\ value x * vy - (rho * M + 3 * eta) <= value (fmul x y)
     <= value x * vy + (rho * M + 3 * eta).
Proof.
  intros FX FY VY B L.
  apply rounds_to_interval; [|exact B].
  apply (rounds_to_ext _ (value x * value y)); [rewrite VY; reflexivity|].
  apply fmul_rounds; [exact FX | exact FY |].
  rewrite VY; exact (big_enough _ _ B L).
Qed.

Lemma fadd_step (x y : float) (vy M : Q) :
  is_finite x = true -> is_finite y = true -> value y == vy ->
  - M <= value x + vy <= M -> M <= 1000000000000 ->
  is_finite (fadd x y) = true
  /\ value x + vy - (rho * M + 3 * eta) <= value (fadd x y)
     <= value x + vy + (rho * M + 3 * eta).
Proof.
  intros FX FY VY B L.
  apply rounds_to_interval; [|exact B].
  apply (rounds_to_ext _ (value x + value y)); [rewrite VY; reflexivity|].
  apply fadd_rounds; [exact FX | exact FY |].
  rewrite VY; exact (big_enough _ _ B L).
Qed.

Lemma fsub_step (x y : float) (vy M : Q) :
  is_finite x = true -> is_finite y = true -> value y == vy ->
  - M <= value x - vy <= M -> M <= 1000000000000 ->
  is_finite (fsub x y) = true
  /\ value x - vy - (rho * M + 3 * eta) <= value (fsub x y)
     <= value x - vy + (rho * M + 3 * eta).
Proof.
  intros FX FY VY B L.
  apply rounds_to_interval; [|exact B].
  apply (rounds_to_ext _ (value x - value y)); [rewrite VY; reflexivity|].
  apply fsub_rounds; [exact FX | exact FY |].
  rewrite VY; exact (big_enough _ _ B L).
Qed.

Lemma fdiv_step (x y : float) (sy : bool) (my : positive) (ey : Z)
    (vy iy M : Q) :
  is_finite x = true -> y = S754_finite sy my ey -> value y == vy ->
  vy * iy == 1 ->
  - M <= value x * iy <= M -> M <= 1000000000000 ->
  is_finite (fdiv x y) = true
  /\ value x * iy - (rho * M + 3 * eta) <= value (fdiv x y)
     <= value x * iy + (rho * M + 3 * eta).
Proof.
  intros FX EY VY IY B L.
  assert (NZ : ~ vy == 0) by (intros Z; rewrite Z in IY; discriminate).
  assert (E : value x / value y == value x * iy).
  { rewrite VY; unfold Qdiv; apply Qmult_inj_l with vy; [exact NZ|].
    setoid_replace (vy * (value x * / vy)) with (value x * (vy * / vy))
      by ring.
    rewrite Qmult_inv_r by exact NZ.
    setoid_replace (vy * (value x * iy)) with (value x * (vy * iy)) by ring.
    rewrite IY; reflexivity. }
  apply rounds_to_interval; [|exact B].
  apply (rounds_to_ext _ (value x / value y)); [exact E|].
  rewrite EY; apply fdiv_rounds; [exact FX|].
  rewrite <- EY, E; exact (big_enough _ _ B L).
Qed.

(** [to_C (to_F c)] follows six operations; their errors add up to about
    [6 * rho * |c|]. *)
Lemma temperature_round_trip (c : float) :
  is_finite c = true -> Qabs (value c) <= 300000000 ->
  within tolerance (to_C (to_F c)) c = true.
Proof.
  intros FC B.
  apply Qabs_Qle_condition in B.
  destruct rho_bounds as (R0 & R1 & E0 & E1 & _).
  change (to_C (to_F c))
    with (fdiv (fmul (fsub (fadd (fdiv (fmul c (of_Z 9)) (of_Z 5)) (of_Z 32))
                           (of_Z 32)) (of_Z 5)) (of_Z 9)).
  assert (F9 : is_finite (of_Z 9) = true) by reflexivity.
  assert (F5 : is_finite (of_Z 5) = true) by reflexivity.
  assert (F32 : is_finite (of_Z 32) = true) by reflexivity.
  assert (V9 : value (of_Z 9) == 9) by (vm_compute; reflexivity).
  assert (V5 : value (of_Z 5) == 5) by (vm_compute; reflexivity).
  assert (V32 : value (of_Z 32) == 32) by (vm_compute; reflexivity).
  assert (E5 : of_Z 5 = S754_finite false 5629499534213120 (-50))
    by (vm_compute; reflexivity).
  assert (E9 : of_Z 9 = S754_finite false 5066549580791808 (-49))
    by (vm_compute; reflexivity).
  destruct (fmul_step c _ 9 2700000000 FC F9 V9) as (F1 & I1);
    [lra | lra |].
  destruct (fdiv_step _ _ _ _ _ 5 (1 # 5) 540000001 F1 E5 V5) as (F2 & I2);
    [reflexivity | lra | lra |].
  destruct (fadd_step _ _ 32 540000100 F2 F32 V32) as (F3 & I3);
    [lra | lra |].
  destruct (fsub_step _ _ 32 540000100 F3 F32 V32) as (F4 & I4);
    [lra | lra |].
  destruct (fmul_step _ _ 5 2700000500 F4 F5 V5) as (F5' & I5);
    [lra | lra |].
  destruct (fdiv_step _ _ _ _ _ 9 (1 # 9) 300000100 F5' E9 V9) as (F6 & I6);
    [reflexivity | lra | lra |].
  apply within_finite; [exact F6 | exact FC |].
  unfold tolerance.
  apply Qabs_Qle_condition; lra.
Qed.

(** [to_m (to_ft m)] follows two operations; their errors add up to about
    [2 * rho * |m|]. *)
Lemma distance_round_trip (m : float) :
  is_finite m = true -> Qabs (value m) <= 1000000000 ->
  within tolerance (to_m (to_ft m)) m = true.
Proof.
  intros FM B.
  apply Qabs_Qle_condition in B.
  destruct rho_bounds as (R0 & R1 & E0 & E1 & _).
  change (to_m (to_ft m))
    with (fdiv (fmul m (Float64.of_decimal false 328084 (-5)))
               (Float64.of_decimal false 328084 (-5))).
  assert (EK : Float64.of_decimal false 328084 (-5)
               = S754_finite false 7387794900731109 (-51))
    by (vm_compute; reflexivity).
  assert (FK : is_finite (Float64.of_decimal false 328084 (-5)) = true)
    by (rewrite EK; reflexivity).
  assert (VK : value (Float64.of_decimal false 328084 (-5))
               == 7387794900731109 # 2251799813685248)
    by (rewrite EK; vm_compute; reflexivity).
  destruct (fmul_step m _ _ 3280840001 FM FK VK) as (F1 & I1);
    [lra | lra |].
  destruct (fdiv_step _ _ _ _ _ _ (2251799813685248 # 7387794900731109)
              1000000001 F1 EK VK) as (F2 & I2);
    [reflexivity | lra | lra |].
  apply within_finite; [exact F2 | exact FM |].
  unfold tolerance.
  apply Qabs_Qle_condition; lra.
Qed.

(** The round trips stop being within 1e-6 a little above 10^10, where
    neighbouring floats are more than 1e-6 apart and the product leaves the
    binade of its operand. *)
Example round_trip_fails_above_1e10 :
  float_of_str (str "9544371768.88")
    = Some (S754_finite false 5003999585962557 (-19))
  /\ within tolerance
       (to_C (to_F (S754_finite false 5003999585962557 (-19))))
       (S754_finite false 5003999585962557 (-19)) = false
  /\ float_of_str (str "10472847919.54")
     = Some (S754_finite false 5490788490039788 (-19))
  /\ within tolerance
       (to_m (to_ft (S754_finite false 5490788490039788 (-19))))
       (S754_finite false 5490788490039788 (-19)) = false.
Proof. repeat split; vm_compute; reflexivity. Qed.

(** C8, amended: read over exact rational numbers, the temperature
    functions are inverses of each other and so are the distance functions.
    On floats every operation rounds and the round trips are approximate,
    but they stay within the tolerance 1e-6 on every float a measurement
    can be: for every finite float [c] of magnitude at most 3 * 10^8 the
    temperature round trip [to_C (to_F c)] is within 1e-6 of [c], and for
    every finite float [m] of magnitude at most 10^9 the distance round trip
    [to_m (to_ft m)] is within 1e-6 of [m]. *)
Theorem round_trip_within_tolerance :
  (forall c : Q, fahrenheit_to_celsius (celsius_to_fahrenheit c) == c)
  /\ (forall f : Q, celsius_to_fahrenheit (fahrenheit_to_celsius f) == f)
  /\ (forall m : Q, feet_to_meters (meters_to_feet m) == m)
  /\ (forall (c : float) (q : Q),
        Q_of_float c = Some q -> Qabs q <= 300000000 ->
        within tolerance (to_C (to_F c)) c = true)
  /\ (forall (m : float) (q : Q),
        Q_of_float m = Some q -> Qabs q <= 1000000000 ->
        within tolerance (to_m (to_ft m)) m = true).
Proof.
  split; [|split; [|split; [|split]]].
  - intros c; unfold fahrenheit_to_celsius, celsius_to_fahrenheit; simpl.
    field.
  - intros f; unfold fahrenheit_to_celsius, celsius_to_fahrenheit; simpl.
    field.
  - intros m; unfold feet_to_meters, meters_to_feet; simpl.
    change (Qpower (inject_Z 10) (-5)) with (1 # 100000).
    field; discriminate.
  - intros c q E B; apply temperature_round_trip.
    + destruct c; try discriminate; reflexivity.
    + unfold value; rewrite E; exact B.
  - intros m q E B; apply distance_round_trip.
    + destruct m; try discriminate; reflexivity.
    + unfold value; rewrite E; exact B.
Qed.

Lemma round_trip_within_tolerance_witness :
  within tolerance (to_C (to_F (S754_finite false 7205759403792794 (-56))))
    (S754_finite false 7205759403792794 (-56)) = true
  /\ within tolerance (to_m (to_ft (of_Z 1000000000))) (of_Z 1000000000)
     = true.
Proof.
  destruct round_trip_within_tolerance as (_ & _ & _ & T & D).
  split.
  - eapply T; [reflexivity | vm_compute; discriminate].
  - eapply D; [reflexivity | vm_compute; discriminate].
Defined.

Close Scope Q_scope.

(** ** Boundary values *)

Example freezing_point_to_fahrenheit :
  process_row (str "F") (str "m") [str "d"; str "0m"; reading_of "0" "C"]
  = OK [str "d"; str "0m"; reading_of "32.00" "F"].
Proof. vm_compute; reflexivity. Qed.

Example freezing_point_to_celsius :
  process_row (str "C") (str "m") [str "d"; str "0m"; reading_of "32" "F"]
  = OK [str "d"; str "0m"; reading_of "0.00" "C"].
Proof. vm_compute; reflexivity. Qed.

Example zero_meters_to_feet :
  process_row (str "C") (str "f") [str "d"; str "0m"; reading_of "0" "C"]
  = OK [str "d"; str "0.00ft"; reading_of "0" "C"].
Proof. vm_compute; reflexivity. Qed.

Example one_meter_from_feet :
  process_row (str "C") (str "m")
    [str "d"; str "3.28084ft"; reading_of "0" "C"]
  = OK [str "d"; str "1.00m"; reading_of "0" "C"].
Proof. vm_compute; reflexivity. Qed.

(** [float] reads decimal digits outside ASCII: the fullwidth digits of
    41 (U+FF14, U+FF11) are converted as [41] is. *)
Example fullwidth_digits_are_converted :
  float_of_str [65300; 65297]%N = float_of_str (str "41")
  /\ process_row (str "C") (str "f")
       [str "d"; [65300; 65297; 109]%N; reading_of "10" "C"]
     = OK [str "d"; str "134.51ft"; reading_of "10" "C"].
Proof. split; vm_compute; reflexivity. Qed.

Example header_only_input (header : row) :
  convert_data (str "C") (str "m") [header] = ([header], OK tt).
Proof. reflexivity. Qed.

Example empty_input :
  convert_data (str "C") (str "m") [] = ([], Raise StopIteration).
Proof. reflexivity. Qed.

(** Scenario A on the page: the row is written without quotes. *)
Example scenario_A_line :
  Csv.writerow scenario_row
  = str "2024-01-01,41m,10" ++ degree :: str "C" ++ [Csv.CR; Csv.LF].
Proof. vm_compute; reflexivity. Qed.

(** * Further properties of [convert_data] *)

(** ** Slices, [split] and [strip] *)

Lemma drop_take_last (n : nat) (s : pystr) :
  drop_last n s ++ take_last n s = s.
Proof. apply firstn_skipn. Qed.

Lemma take_last_length (n : nat) (s : pystr) :
  List.length (take_last n s) = Nat.min n (List.length s).
Proof. unfold take_last; rewrite length_skipn; lia. Qed.

Lemma take_last_app (v u : pystr) :
  take_last (List.length u) (v ++ u) = u.
Proof.
  unfold take_last; rewrite length_app, Nat.add_sub, skipn_app.
  rewrite skipn_all, Nat.sub_diag; reflexivity.
Qed.

Lemma drop_last_app (v u : pystr) :
  drop_last (List.length u) (v ++ u) = v.
Proof.
  unfold drop_last; rewrite length_app, Nat.add_sub, firstn_app.
  rewrite firstn_all, Nat.sub_diag; simpl; apply app_nil_r.
Qed.

Lemma last_char_app (v : pystr) (c : char) : last_char (v ++ [c]) = Some c.
Proof.
  destruct v as [|a v]; simpl; [reflexivity|].
  rewrite last_last; reflexivity.
Qed.

Lemma contains_In (c : char) (s : pystr) : contains c s = true <-> In c s.
Proof.
  unfold contains, char_eqb; rewrite existsb_exists; split.
  - intros (x & I & E); apply N.eqb_eq in E; subst; exact I.
  - intros I; exists c; split; [exact I | apply N.eqb_refl].
Qed.

Lemma contains_app (c : char) (s t : pystr) :
  contains c (s ++ t) = contains c s || contains c t.
Proof. apply existsb_app. Qed.

Lemma contains_rev (c : char) (s : pystr) : contains c (rev s) = contains c s.
Proof.
  apply eq_true_iff_eq; rewrite !contains_In; symmetry; apply in_rev.
Qed.

Lemma contains_lstrip (sp : char -> bool) (c : char) (s : pystr) :
  sp c = false -> contains c (lstrip_with sp s) = contains c s.
Proof.
  intros NS; induction s as [|a s IH]; simpl; [reflexivity|].
  destruct (sp a) eqn:A; [|reflexivity].
  rewrite IH; unfold char_eqb.
  destruct (N.eqb_spec c a) as [->|_]; [congruence | reflexivity].
Qed.

Lemma contains_strip (c : char) (s : pystr) :
  isspace c = false -> contains c (strip s) = contains c s.
Proof.
  intros NS; unfold strip, strip_with.
  rewrite contains_rev, (contains_lstrip isspace c _ NS), contains_rev.
  apply contains_lstrip; exact NS.
Qed.

Lemma split_nonempty (sep : char) (s : pystr) : split sep s <> [].
Proof.
  destruct s as [|c s]; simpl; [discriminate|].
  destruct (char_eqb c sep); [discriminate|].
  destruct (split sep s); discriminate.
Qed.

Lemma split_app (sep : char) (a b : pystr) :
  contains sep a = false -> split sep (a ++ sep :: b) = a :: split sep b.
Proof.
  unfold contains, char_eqb; induction a as [|c a IH]; simpl.
  - intros _; rewrite N.eqb_refl; reflexivity.
  - intros E; apply orb_false_iff in E as [E1 E2].
    rewrite N.eqb_sym, E1, (IH E2); reflexivity.
Qed.

Lemma split_length (sep : char) (s : pystr) :
  List.length (split sep s) = S (count_occ N.eq_dec s sep).
Proof.
  induction s as [|c s IH]; simpl; [reflexivity|].
  unfold char_eqb; destruct (N.eqb_spec c sep) as [->|NE].
  - destruct (N.eq_dec sep sep); [|contradiction]; simpl; rewrite IH.
    reflexivity.
  - destruct (N.eq_dec c sep); [contradiction|].
    destruct (split sep s); simpl in *; [discriminate | exact IH].
Qed.

Lemma split_pieces (sep : char) (s : pystr) :
  Forall (fun p => contains sep p = false) (split sep s).
Proof.
  induction s as [|c s IH]; simpl; [repeat constructor|].
  unfold char_eqb; destruct (N.eqb_spec c sep) as [->|NE].
  - constructor; [reflexivity | exact IH].
  - destruct (split sep s) as [|p ps]; [repeat constructor|].
    + simpl; unfold char_eqb; rewrite orb_false_r; apply N.eqb_neq; congruence.
    + inversion IH as [|? ? P PS]; subst; constructor; [|exact PS].
      simpl; rewrite P; unfold char_eqb; rewrite orb_false_r.
      apply N.eqb_neq; congruence.
Qed.

(** Joining the pieces with the separator gives the string back. *)
Lemma join_split (sep : char) (s : pystr) : Csv.join sep (split sep s) = s.
Proof.
  induction s as [|c s IH]; simpl; [reflexivity|].
  unfold char_eqb; destruct (N.eqb_spec c sep) as [->|NE].
  - pose proof (split_nonempty sep s) as NZ.
    destruct (split sep s) as [|p ps]; [contradiction|].
    change (Csv.join sep ([] :: p :: ps))
      with ([] ++ sep :: Csv.join sep (p :: ps)).
    rewrite IH; reflexivity.
  - destruct (split sep s) as [|p ps]; [simpl in IH; subst; reflexivity|].
    destruct ps as [|p' ps]; simpl in *; rewrite <- IH; reflexivity.
Qed.

(** ** Parsing the two fields *)

Lemma parse_distance_feet (dv suffix : pystr) :
  List.length suffix = 2 -> lower suffix = str "ft" ->
  parse_distance (dv ++ suffix) = OK (dv, str "ft").
Proof.
  intros L E; unfold parse_distance.
  pose proof (take_last_app dv suffix) as TL.
  pose proof (drop_last_app dv suffix) as DL.
  rewrite L in TL, DL; rewrite TL, DL, E, eqb_refl; reflexivity.
Qed.

Lemma parse_distance_last (dv : pystr) (c : char) :
  lower_char c <> 116%N -> parse_distance (dv ++ [c]) = OK (dv, [c]).
Proof.
  intros NT; unfold parse_distance.
  pose proof (drop_last_app dv [c]) as DL; cbn [List.length] in DL.
  rewrite last_char_app, DL.
  destruct (eqb (lower (take_last 2 (dv ++ [c]))) (str "ft")) eqn:E;
    [|reflexivity].
  apply eqb_eq in E; exfalso.
  destruct dv as [|a dv _] using rev_ind; [discriminate|].
  pose proof (take_last_app dv [a; c]) as TL; cbn [List.length] in TL.
  rewrite <- app_assoc in E; cbn [app] in E; rewrite TL in E.
  injection E as _ E; contradiction.
Qed.

Lemma parse_distance_IndexError (distance : pystr) :
  parse_distance distance = Raise IndexError <-> distance = [].
Proof.
  split; [|intros ->; reflexivity].
  intros E; destruct distance as [|c s]; [reflexivity|].
  destruct (parse_distance_nonempty (c :: s)) as (dv & du & D);
    [discriminate | congruence].
Qed.

Lemma parse_reading_split (reading : pystr) :
  parse_reading reading =
    match split degree reading with
    | [tv; raw] => OK (tv, degree :: strip raw)
    | l => Raise (ValueError_unpack 2 (List.length l))
    end.
Proof.
  unfold parse_reading, unpack2.
  destruct (split degree reading) as [|a [|b [|c l]]]; reflexivity.
Qed.

Lemma parse_reading_one_sign (tv raw : pystr) :
  contains degree tv = false -> contains degree raw = false ->
  parse_reading (tv ++ degree :: raw) = OK (tv, degree :: strip raw).
Proof.
  intros T R; rewrite parse_reading_split, (split_app degree tv raw T).
  rewrite (split_without_sep degree raw R); reflexivity.
Qed.

(** X1: the value and the unit of a distance recompose the field.  Either
    the unit is ["ft"] and the field is the value followed by two
    characters that read [ft] in some letter case, or the unit is the last
    character of the field, whatever it is, and the value is what comes
    before it. *)
Theorem parse_distance_recomposes (distance dv du : pystr) :
  parse_distance distance = OK (dv, du) ->
  (du = str "ft"
   /\ exists a b, distance = dv ++ [a; b] /\ lower [a; b] = str "ft")
  \/ (exists c, du = [c] /\ distance = dv ++ [c]
      /\ lower (take_last 2 distance) <> str "ft").
Proof.
  unfold parse_distance.
  destruct (eqb (lower (take_last 2 distance)) (str "ft")) eqn:E.
  - intros P; injection P as <- <-; left; split; [reflexivity|].
    apply eqb_eq in E.
    assert (L : List.length (take_last 2 distance) = 2).
    { rewrite <- (length_map lower_char); fold (lower (take_last 2 distance)).
      rewrite E; reflexivity. }
    destruct (take_last 2 distance) as [|a [|b [|c l]]] eqn:T;
      try discriminate.
    exists a, b; split; [|exact E].
    rewrite <- T; symmetry; apply drop_take_last.
  - destruct distance as [|c0 s _] using rev_ind; [discriminate|].
    pose proof (drop_last_app s [c0]) as DL; cbn [List.length] in DL.
    rewrite last_char_app, DL.
    intros P; injection P as <- <-; right; exists c0.
    repeat split; intros F; rewrite F, eqb_refl in E; discriminate.
Qed.

Lemma parse_distance_recomposes_witness :
  (str "ft" = str "ft"
   /\ exists a b, str "12.5Ft" = str "12.5" ++ [a; b]
                  /\ lower [a; b] = str "ft")
  \/ (exists c, str "ft" = [c] /\ str "12.5Ft" = str "12.5" ++ [c]
      /\ lower (take_last 2 (str "12.5Ft")) <> str "ft").
Proof.
  apply (parse_distance_recomposes (str "12.5Ft") (str "12.5") (str "ft")).
  vm_compute; reflexivity.
Defined.

(** X2: feet are recognised in any letter case and meters only as a small
    [m]: a field ending in [ft], [Ft], [fT] or [FT] has the unit ["ft"], so
    it is converted exactly under the target [m]; a field ending in any
    character other than [t] or [T] has that character as its unit, and it
    is converted exactly when the unit is [m] and the target [f]. *)
Theorem distance_unit_letter_case (tD dv : pystr) (a b c : char) :
  (lower [a; b] = str "ft" ->
   parse_distance (dv ++ [a; b]) = OK (dv, str "ft")
   /\ dist_converted tD (str "ft") = eqb tD (str "m"))
  /\ (lower_char c <> 116%N ->
      parse_distance (dv ++ [c]) = OK (dv, [c])
      /\ dist_converted tD [c] = eqb tD (str "f") && N.eqb c 109).
Proof.
  split.
  - intros E; split; [apply parse_distance_feet; [reflexivity | exact E]|].
    unfold dist_converted, dist_to_m, dist_to_ft; simpl.
    rewrite andb_true_r, andb_false_r, orb_false_r; reflexivity.
  - intros NT; split; [apply parse_distance_last; exact NT|].
    unfold dist_converted, dist_to_m, dist_to_ft; simpl.
    unfold char_eqb; rewrite !andb_false_r, andb_true_r; reflexivity.
Qed.

Lemma distance_unit_letter_case_witness :
  parse_distance (str "12.5FT") = OK (str "12.5", str "ft")
  /\ parse_distance (str "12.5M") = OK (str "12.5", str "M")
  /\ dist_converted (str "f") (str "M") = false.
Proof.
  pose proof (distance_unit_letter_case (str "f") (str "12.5") 70%N 84%N 77%N)
    as (FT & M).
  split; [|split].
  - refine (proj1 (FT _)); vm_compute; reflexivity.
  - refine (proj1 (M _)); vm_compute; discriminate.
  - refine (eq_trans (proj2 (M _)) _); vm_compute;
      [discriminate | reflexivity].
Defined.

(** X3: a reading is accepted exactly when it holds one degree sign.  It
    is then the value, the degree sign and the unit text, in this order,
    and the parsed unit is the degree sign followed by the unit text
    without the white space around it.  With [n] degree signs, [n] other
    than 1, the assignment of the [n + 1] pieces to two names raises
    [ValueError]. *)
Theorem parse_reading_by_degree_signs (reading : pystr) :
  (degree_signs reading = 1 ->
   exists tv raw,
     reading = tv ++ degree :: raw
     /\ contains degree tv = false /\ contains degree raw = false
     /\ parse_reading reading = OK (tv, degree :: strip raw))
  /\ (degree_signs reading <> 1 ->
      parse_reading reading
        = Raise (ValueError_unpack 2 (S (degree_signs reading)))).
Proof.
  unfold degree_signs; rewrite parse_reading_split.
  pose proof (split_length degree reading) as L.
  pose proof (join_split degree reading) as J.
  pose proof (split_pieces degree reading) as P.
  destruct (split degree reading) as [|a [|b [|c l]]]; simpl in L.
  - discriminate.
  - injection L as L; rewrite <- L; split; [discriminate | reflexivity].
  - injection L as L; rewrite <- L; split; [intros _ | contradiction].
    exists a, b; simpl in J.
    inversion P as [|? ? Pa Pb']; inversion Pb' as [|? ? Pb _]; subst.
    repeat split; auto.
  - injection L as L; rewrite <- L; split; [discriminate | reflexivity].
Qed.

Lemma parse_reading_by_degree_signs_witness :
  parse_reading (str "10" ++ degree :: str "C" ++ degree :: str "F")
  = Raise (ValueError_unpack 2 3).
Proof.
  refine (proj2 (parse_reading_by_degree_signs
                   (str "10" ++ degree :: str "C" ++ degree :: str "F")) _).
  vm_compute; discriminate.
Defined.

(** X4: whether a reading is converted depends on the target and on one
    thing more: whether the text after the degree sign holds a capital [F]
    (for the target [C]) or a capital [C] (for the target [F]).  The white
    space that is stripped from the unit, the other characters of the unit
    and their order play no role. *)
Theorem reading_unit_decided_by_letters (tT reading tv tu : pystr) :
  parse_reading reading = OK (tv, tu) ->
  exists raw,
    reading = tv ++ degree :: raw
    /\ temp_to_C tT tu = eqb tT (str "C") && contains 70%N raw
    /\ temp_to_F tT tu = eqb tT (str "F") && contains 67%N raw.
Proof.
  rewrite parse_reading_split.
  pose proof (join_split degree reading) as J.
  destruct (split degree reading) as [|a [|b [|c l]]]; try discriminate.
  intros P; injection P as <- <-; exists b; simpl in J.
  unfold temp_to_C, temp_to_F.
  change (contains 70%N (degree :: strip b)) with (contains 70%N (strip b)).
  change (contains 67%N (degree :: strip b)) with (contains 67%N (strip b)).
  rewrite !contains_strip by reflexivity; auto.
Qed.

Lemma reading_unit_decided_by_letters_witness :
  temp_to_C (str "C") (degree :: str "Fahrenheit") = true.
Proof.
  destruct (reading_unit_decided_by_letters (str "C")
              (str "98.6" ++ degree :: str "  Fahrenheit ")
              (str "98.6") (degree :: str "Fahrenheit"))
    as (raw & _ & C & _); [vm_compute; reflexivity|].
  destruct (temp_to_C (str "C") (degree :: str "Fahrenheit")) eqn:E;
    [reflexivity | vm_compute in E; discriminate].
Defined.

(** ** What a row can do *)

Lemma process_row_OK (tT tD : pystr) (r out : row) :
  process_row tT tD r = OK out ->
  exists date distance reading dv du tv tu new_distance new_reading,
    r = [date; distance; reading]
    /\ parse_distance distance = OK (dv, du)
    /\ parse_reading reading = OK (tv, tu)
    /\ convert_distance tD distance dv du = OK new_distance
    /\ convert_temperature tT reading tv tu = OK new_reading
    /\ out = [date; new_distance; new_reading].
Proof.
  unfold process_row.
  destruct r as [|date [|distance [|reading [|x r]]]]; try discriminate.
  simpl.
  destruct (parse_distance distance) as [[dv du]|] eqn:D; [|discriminate].
  simpl.
  destruct (parse_reading reading) as [[tv tu]|] eqn:R; [|discriminate].
  simpl.
  destruct (convert_distance tD distance dv du) as [nd|] eqn:CD;
    [|discriminate].
  simpl.
  destruct (convert_temperature tT reading tv tu) as [nr|] eqn:CT;
    [|discriminate].
  simpl; intros E; injection E as <-.
  exists date, distance, reading, dv, du, tv, tu, nd, nr; repeat split; auto.
Qed.

Lemma convert_distance_Raise (tD distance dv du : pystr) (e : exn) :
  convert_distance tD distance dv du = Raise e ->
  e = ValueError_float dv /\ float_of_str dv = None
  /\ dist_converted tD du = true.
Proof.
  unfold convert_distance, dist_converted, float_.
  destruct (dist_to_m tD du); [|destruct (dist_to_ft tD du)];
    destruct (float_of_str dv); simpl; try discriminate;
    intros E; injection E as <-; auto.
Qed.

Lemma convert_temperature_Raise (tT reading tv tu : pystr) (e : exn) :
  convert_temperature tT reading tv tu = Raise e ->
  e = ValueError_float tv /\ float_of_str tv = None
  /\ temp_converted tT tu = true.
Proof.
  unfold convert_temperature, temp_converted, float_.
  destruct (temp_to_C tT tu); [|destruct (temp_to_F tT tu)];
    destruct (float_of_str tv); simpl; try discriminate;
    intros E; injection E as <-; auto.
Qed.

(** ** What a run writes *)

Lemma loop_spec (tT tD : pystr) (rows written : list row) :
  exists outs,
    fst (loop tT tD rows written) = written ++ outs
    /\ processed tT tD (firstn (List.length outs) rows) outs
    /\ match snd (loop tT tD rows written) with
       | OK _ => List.length outs = List.length rows
       | Raise e =>
           exists bad, nth_error rows (List.length outs) = Some bad
                       /\ process_row tT tD bad = Raise e
       end.
Proof.
  revert written; induction rows as [|r rows IH]; intros written; simpl.
  - exists []; rewrite app_nil_r; repeat split; constructor.
  - destruct (process_row tT tD r) as [o|e] eqn:E.
    + destruct (IH (written ++ [o])) as (outs & W & P & S).
      exists (o :: outs); rewrite W, <- app_assoc; simpl.
      repeat split; [constructor; assumption|].
      destruct (snd (loop tT tD rows (written ++ [o]))); [lia | exact S].
    + exists []; simpl; rewrite app_nil_r.
      repeat split; [constructor|]; exists r; auto.
Qed.

Lemma processed_length (tT tD : pystr) (rows outs : list row) :
  processed tT tD rows outs -> List.length outs = List.length rows.
Proof. intros P; symmetry; exact (Forall2_length P). Qed.

Lemma convert_data_OK (tT tD : pystr) (infile outfile : list row) :
  convert_data tT tD infile = (outfile, OK tt) ->
  exists header rows outs,
    infile = header :: rows /\ outfile = header :: outs
    /\ processed tT tD rows outs.
Proof.
  destruct infile as [|header rows]; simpl; [discriminate|].
  intros E; destruct (loop_spec tT tD rows [header]) as (outs & W & P & S).
  rewrite E in W, S; simpl in W, S.
  exists header, rows, outs; repeat split; [auto|].
  rewrite S, firstn_all in P; exact P.
Qed.

(** X6: whatever the input, the output file holds the header, as it was
    read, followed by the rows written for a leading part of the data
    rows, one for one and in order.  The run ends normally exactly when
    that part is all the data rows; otherwise the exception is the one of
    the first data row that was not written. *)
Theorem output_is_processed_prefix (tT tD : pystr) (header : row)
    (rows : list row) :
  exists outs,
    fst (convert_data tT tD (header :: rows)) = header :: outs
    /\ processed tT tD (firstn (List.length outs) rows) outs
    /\ match snd (convert_data tT tD (header :: rows)) with
       | OK _ => List.length outs = List.length rows
       | Raise e =>
           exists bad, nth_error rows (List.length outs) = Some bad
                       /\ process_row tT tD bad = Raise e
       end.
Proof. exact (loop_spec tT tD rows [header]). Qed.

(** X7: [StopIteration] is the exception of an input without a header
    row, and of no other input: no data row raises it. *)
Theorem StopIteration_iff_no_header (tT tD : pystr) (infile : list row) :
  snd (convert_data tT tD infile) = Raise StopIteration <-> infile = [].
Proof.
  split; [|intros ->; reflexivity].
  destruct infile as [|header rows]; [reflexivity|].
  destruct (loop_spec tT tD rows [header]) as (outs & _ & _ & S).
  simpl; intros E; rewrite E in S; destruct S as (bad & _ & B).
  unfold process_row in B.
  destruct bad as [|date [|distance [|reading [|x r]]]]; try discriminate.
  simpl in B.
  destruct (parse_distance distance) as [[dv du]|e0] eqn:D; simpl in B.
  2:{ unfold parse_distance in D; destruct (eqb _ _); [discriminate|].
      destruct (last_char distance); congruence. }
  rewrite parse_reading_split in B.
  destruct (split degree reading) as [|a [|b [|c l]]]; try discriminate.
  simpl in B.
  destruct (convert_distance tD distance dv du) as [nd|e1] eqn:CD;
    simpl in B.
  - destruct (convert_temperature tT reading a (degree :: strip b))
      as [nr|e2] eqn:CT; simpl in B; [discriminate|].
    apply convert_temperature_Raise in CT as (-> & _); discriminate.
  - apply convert_distance_Raise in CD as (-> & _); discriminate.
Qed.

(** X8: every row written has three fields and the date of the row it
    comes from.  Its distance is either the distance as read or a number
    in the format [:.2f] followed by the suffix of the target, and so is
    its reading: a field is never changed in any other way. *)
Theorem written_row_shape (tT tD : pystr) (r out : row) :
  process_row tT tD r = OK out ->
  exists date distance reading new_distance new_reading,
    r = [date; distance; reading]
    /\ out = [date; new_distance; new_reading]
    /\ (new_distance = distance
        \/ exists x suffix, dist_suffix tD = Some suffix
                            /\ new_distance = format_2f x ++ suffix)
    /\ (new_reading = reading
        \/ exists x suffix, temp_suffix tT = Some suffix
                            /\ new_reading = format_2f x ++ suffix).
Proof.
  intros P; apply process_row_OK in P
    as (date & distance & reading & dv & du & tv & tu & nd & nr
        & -> & D & R & CD & CT & ->).
  exists date, distance, reading, nd, nr; repeat split.
  - unfold convert_distance, dist_to_m, dist_to_ft, dist_suffix, float_ in *.
    destruct (eqb tD (str "m")) eqn:M; simpl in CD.
    + destruct (eqb du (str "ft")); simpl in CD.
      * destruct (float_of_str dv) as [x|]; [|discriminate].
        injection CD as <-; right; eauto.
      * apply eqb_eq in M; subst tD; simpl in CD.
        injection CD as <-; left; reflexivity.
    + destruct (eqb tD (str "f")); simpl in CD.
      * destruct (eqb du (str "m")); simpl in CD.
        -- destruct (float_of_str dv) as [x|]; [|discriminate].
           injection CD as <-; right; eauto.
        -- injection CD as <-; left; reflexivity.
      * injection CD as <-; left; reflexivity.
  - unfold convert_temperature, temp_to_C, temp_to_F, temp_suffix, float_
      in *.
    destruct (eqb tT (str "C")) eqn:C; simpl in CT.
    + destruct (contains 70%N tu); simpl in CT.
      * destruct (float_of_str tv) as [x|]; [|discriminate].
        injection CT as <-; right; eauto.
      * apply eqb_eq in C; subst tT; simpl in CT.
        injection CT as <-; left; reflexivity.
    + destruct (eqb tT (str "F")); simpl in CT.
      * destruct (contains 67%N tu); simpl in CT.
        -- destruct (float_of_str tv) as [x|]; [|discriminate].
           injection CT as <-; right; eauto.
        -- injection CT as <-; left; reflexivity.
      * injection CT as <-; left; reflexivity.
Qed.

Lemma written_row_shape_witness :
  exists date distance reading new_distance new_reading,
    scenario_row = [date; distance; reading]
    /\ scenario_B_row = [date; new_distance; new_reading]
    /\ (new_distance = distance
        \/ exists x suffix, dist_suffix (str "f") = Some suffix
                            /\ new_distance = format_2f x ++ suffix)
    /\ (new_reading = reading
        \/ exists x suffix, temp_suffix (str "F") = Some suffix
                            /\ new_reading = format_2f x ++ suffix).
Proof.
  apply (written_row_shape (str "F") (str "f") scenario_row scenario_B_row).
  vm_compute; reflexivity.
Defined.

(** X9: the two columns do not influence each other.  The distance written
    for a row depends on the distance target only and the reading written
    on the temperature target only: two runs with the same distance target
    write the same distance, whatever their temperature targets are, and
    likewise for the reading. *)
Theorem columns_are_independent (tT tT' tD tD' : pystr) (r out out' : row) :
  process_row tT tD r = OK out ->
  process_row tT' tD' r = OK out' ->
  nth_error out 0 = nth_error out' 0
  /\ (tD = tD' -> nth_error out 1 = nth_error out' 1)
  /\ (tT = tT' -> nth_error out 2 = nth_error out' 2).
Proof.
  intros P P'.
  apply process_row_OK in P
    as (date & distance & reading & dv & du & tv & tu & nd & nr
        & -> & D & R & CD & CT & ->).
  apply process_row_OK in P'
    as (date' & distance' & reading' & dv' & du' & tv' & tu' & nd' & nr'
        & Er & D' & R' & CD' & CT' & ->).
  injection Er as <- <- <-.
  rewrite D in D'; injection D' as <- <-.
  rewrite R in R'; injection R' as <- <-.
  repeat split.
  - intros <-; rewrite CD in CD'; injection CD' as <-; reflexivity.
  - intros <-; rewrite CT in CT'; injection CT' as <-; reflexivity.
Qed.

Lemma columns_are_independent_witness :
  nth_error scenario_B_row 1 = Some (str "134.51ft").
Proof.
  refine (eq_trans (proj1 (proj2 (columns_are_independent
            (str "F") (str "C") (str "f") (str "f") scenario_row
            scenario_B_row
            [str "2024-01-01"; str "134.51ft"; reading_of "10" "C"]
            _ _)) eq_refl) _); vm_compute; reflexivity.
Defined.

(** ** A written number as input *)

(** The characters of a number with two decimals: the minus sign, the
    point and the digits. *)
Lemma number_char_plain (c : char) :
  (45 <= c <= 57)%N ->
  is_ascii_space c = false /\ char_eqb c underscore = false
  /\ char_eqb degree c = false.
Proof.
  intros B; unfold is_ascii_space, char_eqb, underscore, degree.
  repeat split; decide_comparisons; reflexivity.
Qed.

Lemma to_ascii_plain (s : pystr) :
  (forall c, In c s -> (c < 127)%N) -> to_ascii s = s.
Proof.
  induction s as [|c s IH]; intros A; simpl; [reflexivity|].
  assert (C : (c <? 127)%N = true)
    by (apply N.ltb_lt, A; left; reflexivity).
  rewrite C, IH; [reflexivity | intros; apply A; right; assumption].
Qed.

Lemma digit_bounds (c : char) : is_digit c = true -> (48 <= c <= 57)%N.
Proof.
  unfold is_digit; intros D; apply andb_true_iff in D as [L U].
  apply N.leb_le in L; apply N.leb_le in U; lia.
Qed.

Lemma fixed2_chars (s : bool) (n : N) (c : char) :
  In c (fixed2 s n) -> (45 <= c <= 57)%N.
Proof.
  unfold fixed2; intros I.
  apply in_app_or in I as [I|I]; [destruct s; simpl in I; [|tauto]|].
  { destruct I as [<-|[]]; lia. }
  apply in_app_or in I as [I|I].
  - pose proof (decimal_digits (n / 100)) as DG.
    rewrite forallb_forall in DG; apply DG, digit_bounds in I; lia.
  - destruct I as [<-|[<-|[<-|[]]]]; [lia| |];
      match goal with
      | |- context [digit_char ?k] =>
          pose proof (digit_bounds _ (digit_char_digit k)); lia
      end.
Qed.

Lemma format_2f_no_degree (x : float) : contains degree (format_2f x) = false.
Proof.
  destruct x as [s|s| |s m e]; try (destruct s; reflexivity);
    try reflexivity.
  simpl; destruct (contains degree (fixed2 s (hundredths m e))) eqn:E;
    [|reflexivity].
  apply contains_In, fixed2_chars in E; unfold degree in E; lia.
Qed.

Lemma drop_underscores_plain (s : pystr) (prev : option char) :
  (forall c, In c s -> char_eqb c underscore = false) ->
  match prev with
  | Some p => char_eqb p underscore = false
  | None => True
  end ->
  drop_underscores prev s = Some s.
Proof.
  revert prev; induction s as [|c s IH]; intros prev A P; simpl.
  - destruct prev as [p|]; [rewrite P|]; reflexivity.
  - assert (C : char_eqb c underscore = false) by (apply A; left; reflexivity).
    rewrite C.
    assert (U : match prev with
                | Some p => char_eqb p underscore
                | None => false
                end = false) by (destruct prev; auto).
    rewrite U; simpl.
    rewrite (IH (Some c)); [reflexivity | intros; apply A; right; auto | exact C].
Qed.

Lemma lstrip_with_plain (sp : char -> bool) (s : pystr) :
  (forall c, In c s -> sp c = false) -> lstrip_with sp s = s.
Proof.
  destruct s as [|a s]; simpl; [reflexivity|].
  intros A; rewrite (A a); [reflexivity | left; reflexivity].
Qed.

Lemma strip_with_plain (sp : char -> bool) (s : pystr) :
  (forall c, In c s -> sp c = false) -> strip_with sp s = s.
Proof.
  intros A; unfold strip_with.
  rewrite (lstrip_with_plain sp s A), lstrip_with_plain, rev_involutive;
    [reflexivity|].
  intros c I; apply A, in_rev; exact I.
Qed.

Lemma read_digits_digit (acc : N) (n : nat) (c : char) (s : pystr) :
  is_digit c = true ->
  read_digits acc n (c :: s) = read_digits (acc * 10 + (c - 48))%N (S n) s.
Proof. intros D; simpl; rewrite D; reflexivity. Qed.

Lemma read_digits_uint_pos (d : Decimal.uint) (p : positive) (n : nat)
    (rest : pystr) :
  read_digits (N.pos p) n (uint_chars d ++ rest)
  = read_digits (N.pos (Pos.of_uint_acc d p)) (Decimal.nb_digits d + n) rest.
Proof.
  revert p n; induction d as [|d IH|d IH|d IH|d IH|d IH|d IH|d IH|d IH|d IH|d IH];
    intros p n; [reflexivity|..]; (cbn [uint_chars app]; rewrite read_digits_digit by reflexivity); cbn [Pos.of_uint_acc];
    match goal with
    | |- read_digits ?a _ _ = read_digits (N.pos (Pos.of_uint_acc _ ?q)) _ _ =>
        replace a with (N.pos q) by lia
    end;
    rewrite IH; cbn [Decimal.nb_digits]; f_equal; lia.
Qed.

Lemma read_digits_uint (d : Decimal.uint) (n : nat) (rest : pystr) :
  read_digits 0 n (uint_chars d ++ rest)
  = read_digits (N.of_uint d) (Decimal.nb_digits d + n) rest.
Proof.
  unfold N.of_uint.
  revert n; induction d as [|d IH|d IH|d IH|d IH|d IH|d IH|d IH|d IH|d IH|d IH];
    intros n; [reflexivity|..]; (cbn [uint_chars app]; rewrite read_digits_digit by reflexivity); cbn [Pos.of_uint].
  - change (0 * 10 + (48 - 48))%N with 0%N.
    rewrite IH; cbn [Decimal.nb_digits]; f_equal; lia.
  - change (0 * 10 + (49 - 48))%N with 1%N; rewrite read_digits_uint_pos.
    cbn [Decimal.nb_digits]; f_equal; lia.
  - change (0 * 10 + (50 - 48))%N with 2%N; rewrite read_digits_uint_pos.
    cbn [Decimal.nb_digits]; f_equal; lia.
  - change (0 * 10 + (51 - 48))%N with 3%N; rewrite read_digits_uint_pos.
    cbn [Decimal.nb_digits]; f_equal; lia.
  - change (0 * 10 + (52 - 48))%N with 4%N; rewrite read_digits_uint_pos.
    cbn [Decimal.nb_digits]; f_equal; lia.
  - change (0 * 10 + (53 - 48))%N with 5%N; rewrite read_digits_uint_pos.
    cbn [Decimal.nb_digits]; f_equal; lia.
  - change (0 * 10 + (54 - 48))%N with 6%N; rewrite read_digits_uint_pos.
    cbn [Decimal.nb_digits]; f_equal; lia.
  - change (0 * 10 + (55 - 48))%N with 7%N; rewrite read_digits_uint_pos.
    cbn [Decimal.nb_digits]; f_equal; lia.
  - change (0 * 10 + (56 - 48))%N with 8%N; rewrite read_digits_uint_pos.
    cbn [Decimal.nb_digits]; f_equal; lia.
  - change (0 * 10 + (57 - 48))%N with 9%N; rewrite read_digits_uint_pos.
    cbn [Decimal.nb_digits]; f_equal; lia.
Qed.

Lemma read_sign_uint (d : Decimal.uint) (rest : pystr) :
  d <> Decimal.Nil ->
  read_sign (uint_chars d ++ rest) = (false, uint_chars d ++ rest).
Proof. destruct d; [contradiction|reflexivity..]. Qed.

Lemma uint_not_a_word (d : Decimal.uint) (rest : pystr) (w : string) :
  d <> Decimal.Nil ->
  w = "inf"%string \/ w = "infinity"%string \/ w = "nan"%string ->
  eqb (lower (uint_chars d ++ rest)) (str w) = false.
Proof.
  intros NZ [->|[->| ->]]; destruct d; try contradiction; reflexivity.
Qed.

Lemma two_decimals_value (n : N) :
  (((n / 100) * 10 + (digit_char (n / 10) - 48)) * 10
   + (digit_char n - 48))%N = n.
Proof.
  unfold digit_char; rewrite !(N.add_comm 48), !N.add_sub.
  replace (n / 100)%N with (n / 10 / 10)%N
    by (rewrite N.Div0.div_div; reflexivity).
  pose proof (N.div_mod n 10) as A.
  pose proof (N.div_mod (n / 10) 10) as B.
  revert A B.
  generalize (n mod 10)%N, ((n / 10) mod 10)%N, (n / 10 / 10)%N, (n / 10)%N.
  intros r0 r1 y x A B; specialize (A ltac:(discriminate)).
  specialize (B ltac:(discriminate)); lia.
Qed.

Lemma float_of_fixed2 (s : bool) (n : N) :
  float_of_str (fixed2 s n) = Some (of_decimal s n (-2)).
Proof.
  assert (P : forall c, In c (fixed2 s n) ->
                        is_ascii_space c = false
                        /\ char_eqb c underscore = false).
  { intros c I; apply fixed2_chars, number_char_plain in I; tauto. }
  unfold float_of_str.
  rewrite to_ascii_plain
    by (intros c I; apply fixed2_chars in I; lia).
  rewrite drop_underscores_plain; [|intros c I; apply P, I | exact I].
  rewrite strip_with_plain by (intros c I; apply P, I).
  unfold fixed2, decimal.
  assert (NZ : N.to_uint (n / 100) <> Decimal.Nil).
  { destruct (n / 100)%N; simpl; [discriminate|].
    apply DecimalPos.Unsigned.to_uint_nonnil. }
  pose proof (DecimalN.Unsigned.of_to (n / 100)) as V.
  set (d := N.to_uint (n / 100)) in *.
  set (tl := [46%N; digit_char (n / 10); digit_char n]).
  assert (RS : read_sign (sign_chars s ++ uint_chars d ++ tl)
               = (s, uint_chars d ++ tl)).
  { destruct s; [reflexivity | apply read_sign_uint, NZ]. }
  rewrite RS.
  rewrite !(uint_not_a_word d tl) by auto.
  cbv beta iota zeta; cbn [orb].
  unfold read_number.
  rewrite read_digits_uint, V.
  subst tl; cbn [read_digits].
  change (is_digit 46%N) with false; cbv beta iota zeta.
  rewrite !read_digits_digit by apply digit_char_digit.
  cbn [read_digits]; cbv beta iota zeta.
  rewrite two_decimals_value, (Nat.add_comm _ 2); reflexivity.
Qed.

Lemma format_2f_reads_back (x : float) :
  float_of_str (format_2f x) = Some (round_2f x).
Proof.
  destruct x as [s|s| |s m e]; try (destruct s; reflexivity);
    try reflexivity.
  apply float_of_fixed2.
Qed.

Lemma parse_written_meters (v : pystr) :
  parse_distance (v ++ str "m") = OK (v, str "m").
Proof. apply parse_distance_last; vm_compute; discriminate. Qed.

Lemma parse_written_feet (v : pystr) :
  parse_distance (v ++ str "ft") = OK (v, str "ft").
Proof. apply parse_distance_feet; reflexivity. Qed.

Lemma parse_written_reading (x : float) (letter : char) :
  isspace letter = false -> char_eqb degree letter = false ->
  parse_reading (format_2f x ++ degree :: [letter])
  = OK (format_2f x, degree :: [letter]).
Proof.
  intros NS ND.
  rewrite parse_reading_one_sign;
    [| apply format_2f_no_degree
     | unfold contains; cbn [existsb]; rewrite ND; reflexivity].
  unfold strip, strip_with; cbn [lstrip_with]; rewrite NS.
  cbn [rev app lstrip_with]; rewrite NS; reflexivity.
Qed.

(** X10: a field written by a conversion is well-formed input.  It parses
    into the text of the number and the unit of its suffix, and [float]
    accepts that text: it reads the number rounded to two decimals, or the
    infinity or NaN that was written. *)
Theorem converted_field_reads_back (x : float) :
  float_of_str (format_2f x) = Some (round_2f x)
  /\ parse_distance (format_2f x ++ str "m") = OK (format_2f x, str "m")
  /\ parse_distance (format_2f x ++ str "ft") = OK (format_2f x, str "ft")
  /\ parse_reading (format_2f x ++ degree :: str "C")
     = OK (format_2f x, degree :: str "C")
  /\ parse_reading (format_2f x ++ degree :: str "F")
     = OK (format_2f x, degree :: str "F").
Proof.
  split; [apply format_2f_reads_back|].
  split; [apply parse_written_meters|].
  split; [apply parse_written_feet|].
  split; apply parse_written_reading; reflexivity.
Qed.

(** ** Running on one's own output *)

Lemma convert_distance_settles (tD distance dv du nd : pystr) :
  convert_distance tD distance dv du = OK nd ->
  nd = distance
  \/ exists dv' du', parse_distance nd = OK (dv', du')
                     /\ dist_converted tD du' = false.
Proof.
  unfold convert_distance, float_.
  destruct (dist_to_m tD du) eqn:M.
  - destruct (float_of_str dv) as [x|]; simpl; [|discriminate].
    intros E; injection E as <-; right.
    exists (format_2f (to_m x)), (str "m"); split;
      [apply parse_written_meters|].
    unfold dist_to_m in M; apply andb_true_iff in M as [T _].
    apply eqb_eq in T; subst tD; reflexivity.
  - destruct (dist_to_ft tD du) eqn:F.
    + destruct (float_of_str dv) as [x|]; simpl; [|discriminate].
      intros E; injection E as <-; right.
      exists (format_2f (to_ft x)), (str "ft"); split;
        [apply parse_written_feet|].
      unfold dist_to_ft in F; apply andb_true_iff in F as [T _].
      apply eqb_eq in T; subst tD; reflexivity.
    + intros E; injection E as <-; left; reflexivity.
Qed.

Lemma convert_temperature_settles (tT reading tv tu nr : pystr) :
  convert_temperature tT reading tv tu = OK nr ->
  nr = reading
  \/ exists tv' tu', parse_reading nr = OK (tv', tu')
                     /\ temp_converted tT tu' = false.
Proof.
  unfold convert_temperature, float_.
  destruct (temp_to_C tT tu) eqn:C.
  - destruct (float_of_str tv) as [x|]; simpl; [|discriminate].
    intros E; injection E as <-; right.
    exists (format_2f (to_C x)), (degree :: str "C"); split;
      [apply parse_written_reading; reflexivity|].
    unfold temp_to_C in C; apply andb_true_iff in C as [T _].
    apply eqb_eq in T; subst tT; reflexivity.
  - destruct (temp_to_F tT tu) eqn:F.
    + destruct (float_of_str tv) as [x|]; simpl; [|discriminate].
      intros E; injection E as <-; right.
      exists (format_2f (to_F x)), (degree :: str "F"); split;
        [apply parse_written_reading; reflexivity|].
      unfold temp_to_F in F; apply andb_true_iff in F as [T _].
      apply eqb_eq in T; subst tT; reflexivity.
    + intros E; injection E as <-; left; reflexivity.
Qed.

(** A row that was written is written again as it is. *)
Lemma process_row_settles (tT tD : pystr) (r out : row) :
  process_row tT tD r = OK out -> process_row tT tD out = OK out.
Proof.
  intros P; pose proof P as P'; apply process_row_OK in P'
    as (date & distance & reading & dv & du & tv & tu & nd & nr
        & -> & D & R & CD & CT & ->).
  assert (SD : exists dv' du', parse_distance nd = OK (dv', du')
                               /\ convert_distance tD nd dv' du' = OK nd).
  { destruct (convert_distance_settles _ _ _ _ _ CD)
      as [->|(dv' & du' & D' & N')].
    - exists dv, du; split; assumption.
    - exists dv', du'; split; [exact D'|].
      apply convert_distance_passthrough, N'. }
  assert (ST : exists tv' tu', parse_reading nr = OK (tv', tu')
                               /\ convert_temperature tT nr tv' tu' = OK nr).
  { destruct (convert_temperature_settles _ _ _ _ _ CT)
      as [->|(tv' & tu' & R' & N')].
    - exists tv, tu; split; assumption.
    - exists tv', tu'; split; [exact R'|].
      apply convert_temperature_passthrough, N'. }
  destruct SD as (dv' & du' & D' & CD'), ST as (tv' & tu' & R' & CT').
  rewrite (process_row_steps tT tD date nd nr dv' du' tv' tu' D' R').
  rewrite CD'; simpl; rewrite CT'; reflexivity.
Qed.

(** X11: converting is idempotent.  When a run ends normally, running
    [convert_data] with the same targets on the rows it wrote ends normally
    too and writes the same rows again: a converted field has the unit of
    its target, and a field left alone is left alone again. *)
Theorem convert_data_idempotent (tT tD : pystr) (infile outfile : list row) :
  convert_data tT tD infile = (outfile, OK tt) ->
  convert_data tT tD outfile = (outfile, OK tt).
Proof.
  intros E; apply convert_data_OK in E as (header & rows & outs & -> & -> & P).
  apply convert_data_completes.
  induction P as [|r o rows outs E _ IH]; constructor; [|exact IH].
  apply (process_row_settles tT tD r o E).
Qed.

Lemma convert_data_idempotent_witness :
  convert_data (str "F") (str "f") [header_row; scenario_B_row]
  = ([header_row; scenario_B_row], OK tt).
Proof.
  apply (convert_data_idempotent (str "F") (str "f")
           [header_row; scenario_row]).
  vm_compute; reflexivity.
Defined.

(** ** Converting back *)

Lemma convert_distance_of_number (tD distance dv du : pystr) (x : float) :
  float_of_str dv = Some x ->
  exists nd, convert_distance tD distance dv du = OK nd.
Proof.
  intros F; unfold convert_distance, float_; rewrite F.
  destruct (dist_to_m tD du); [|destruct (dist_to_ft tD du)]; simpl; eauto.
Qed.

Lemma convert_temperature_of_number (tT reading tv tu : pystr) (x : float) :
  float_of_str tv = Some x ->
  exists nr, convert_temperature tT reading tv tu = OK nr.
Proof.
  intros F; unfold convert_temperature, float_; rewrite F.
  destruct (temp_to_C tT tu); [|destruct (temp_to_F tT tu)]; simpl; eauto.
Qed.

Lemma converted_distance_is_number (tD distance dv du nd : pystr) :
  dist_converted tD du = true ->
  convert_distance tD distance dv du = OK nd ->
  exists dv' du' x, parse_distance nd = OK (dv', du')
                    /\ float_of_str dv' = Some x.
Proof.
  unfold dist_converted, convert_distance, float_; intros T.
  destruct (dist_to_m tD du); [|destruct (dist_to_ft tD du)];
    [| |discriminate];
    (destruct (float_of_str dv) as [x|]; simpl; [|discriminate]);
    intros E; injection E as <-.
  - exists (format_2f (to_m x)), (str "m"), (round_2f (to_m x)); split;
      [apply parse_written_meters | apply format_2f_reads_back].
  - exists (format_2f (to_ft x)), (str "ft"), (round_2f (to_ft x)); split;
      [apply parse_written_feet | apply format_2f_reads_back].
Qed.

Lemma converted_reading_is_number (tT reading tv tu nr : pystr) :
  temp_converted tT tu = true ->
  convert_temperature tT reading tv tu = OK nr ->
  exists tv' tu' x, parse_reading nr = OK (tv', tu')
                    /\ float_of_str tv' = Some x.
Proof.
  unfold temp_converted, convert_temperature, float_; intros T.
  destruct (temp_to_C tT tu); [|destruct (temp_to_F tT tu)];
    [| |discriminate];
    (destruct (float_of_str tv) as [x|]; simpl; [|discriminate]);
    intros E; injection E as <-.
  - exists (format_2f (to_C x)), (degree :: str "C"), (round_2f (to_C x));
      split; [apply parse_written_reading; reflexivity
             | apply format_2f_reads_back].
  - exists (format_2f (to_F x)), (degree :: str "F"), (round_2f (to_F x));
      split; [apply parse_written_reading; reflexivity
             | apply format_2f_reads_back].
Qed.

(** X12: a row whose two fields were converted can be converted again, to
    any targets, without an exception: what was written parses, and the
    numbers written are numbers [float] accepts.  In particular a file
    converted to feet and Fahrenheit can be converted back to meters and
    Celsius. *)
Theorem converted_row_converts_again
    (tT tD tT' tD' date distance reading dv du tv tu : pystr) (out : row) :
  parse_distance distance = OK (dv, du) ->
  parse_reading reading = OK (tv, tu) ->
  dist_converted tD du = true ->
  temp_converted tT tu = true ->
  process_row tT tD [date; distance; reading] = OK out ->
  exists out', process_row tT' tD' out = OK out'.
Proof.
  intros D R TD TT P.
  rewrite (process_row_steps tT tD date distance reading dv du tv tu D R) in P.
  destruct (convert_distance tD distance dv du) as [nd|] eqn:CD;
    simpl in P; [|discriminate].
  destruct (convert_temperature tT reading tv tu) as [nr|] eqn:CT;
    simpl in P; [|discriminate].
  injection P as <-.
  destruct (converted_distance_is_number _ _ _ _ _ TD CD)
    as (dv' & du' & x & D' & FD).
  destruct (converted_reading_is_number _ _ _ _ _ TT CT)
    as (tv' & tu' & y & R' & FT).
  rewrite (process_row_steps tT' tD' date nd nr dv' du' tv' tu' D' R').
  destruct (convert_distance_of_number tD' nd dv' du' x FD) as (nd' & ->).
  destruct (convert_temperature_of_number tT' nr tv' tu' y FT) as (nr' & ->).
  simpl; eauto.
Qed.

Lemma converted_row_converts_again_witness :
  exists out', process_row (str "C") (str "m") scenario_B_row = OK out'.
Proof.
  apply (converted_row_converts_again (str "F") (str "f") (str "C") (str "m")
           (str "2024-01-01") (str "41m") (reading_of "10" "C")
           (str "41") (str "m") (str "10") (degree :: str "C")
           scenario_B_row); vm_compute; reflexivity.
Defined.

Example scenario_B_converted_back :
  process_row (str "C") (str "m") scenario_B_row
  = OK [str "2024-01-01"; str "41.00m"; reading_of "10.00" "C"].
Proof. vm_compute; reflexivity. Qed.

(** ** Which rows end the run *)

Lemma parse_reading_cases (reading : pystr) :
  (degree_signs reading = 1 ->
   exists tv tu, parse_reading reading = OK (tv, tu))
  /\ (degree_signs reading <> 1 ->
      parse_reading reading
        = Raise (ValueError_unpack 2 (S (degree_signs reading)))).
Proof.
  rewrite parse_reading_split.
  pose proof (split_length degree reading) as L.
  fold (degree_signs reading) in L.
  destruct (split degree reading) as [|a [|b [|c l]]]; simpl in L;
    try discriminate; injection L as L; rewrite <- L; split;
    intros H; try discriminate; try contradiction; try reflexivity.
  eauto.
Qed.

Lemma unpack3_raises (r : row) :
  List.length r <> 3 ->
  unpack3 r = Raise (ValueError_unpack 3 (List.length r)).
Proof.
  destruct r as [|a [|b [|c [|d r]]]]; simpl; intros H;
    try reflexivity; contradiction.
Qed.

(** A row raises [e] exactly when it is one of the rows of [row_raises]. *)
Lemma process_row_raises_iff (tT tD : pystr) (r : row) (e : exn) :
  process_row tT tD r = Raise e <-> row_raises tT tD r e.
Proof.
  split.
  - destruct r as [|date [|distance [|reading [|x r]]]];
      try (intros E; unfold process_row in E; simpl in E;
           injection E as <-; apply raises_field_count; simpl; lia).
    destruct distance as [|c0 distance'].
    { intros E; unfold process_row in E; simpl in E; injection E as <-.
      constructor. }
    set (distance := c0 :: distance') in *.
    assert (NE : distance <> []) by discriminate.
    destruct (parse_distance_nonempty distance NE) as (dv & du & D).
    destruct (parse_reading_cases reading) as (One & Other).
    destruct (Nat.eq_dec (degree_signs reading) 1) as [S1|S1].
    + destruct (One S1) as (tv & tu & R).
      rewrite (process_row_steps tT tD date distance reading dv du tv tu D R).
      destruct (convert_distance tD distance dv du) as [nd|e1] eqn:CD;
        simpl.
      * destruct (convert_temperature tT reading tv tu) as [nr|e2] eqn:CT;
          simpl; [discriminate|].
        intros E; injection E as <-.
        apply convert_temperature_Raise in CT as (-> & F & T).
        apply (raises_reading_value tT tD date distance reading dv du tv tu);
          auto.
        intros TD FD.
        rewrite (convert_distance_raises tD distance dv du TD FD) in CD.
        discriminate.
      * intros E; injection E as <-.
        apply convert_distance_Raise in CD as (-> & F & T).
        apply (raises_distance_value tT tD date distance reading dv du);
          auto.
    + unfold process_row; simpl; rewrite D; simpl; rewrite (Other S1); simpl.
      intros E; injection E as <-; constructor; assumption.
  - intros [r' L|date reading|date distance reading NE S1
            |date distance reading dv du D S1 TD FD
            |date distance reading dv du tv tu D R OKD TT FT].
    + unfold process_row; rewrite (unpack3_raises r' L); reflexivity.
    + reflexivity.
    + destruct (parse_distance_nonempty distance NE) as (dv & du & D).
      unfold process_row; simpl; rewrite D; simpl.
      rewrite (proj2 (parse_reading_cases reading) S1); reflexivity.
    + destruct (proj1 (parse_reading_cases reading) S1) as (tv & tu & R).
      rewrite (process_row_steps tT tD date distance reading dv du tv tu D R).
      rewrite (convert_distance_raises tD distance dv du TD FD); reflexivity.
    + rewrite (process_row_steps tT tD date distance reading dv du tv tu D R).
      assert (CD : exists nd, convert_distance tD distance dv du = OK nd).
      { destruct (dist_converted tD du) eqn:TD.
        - destruct (float_of_str dv) as [x|] eqn:FD;
            [|exfalso; apply OKD; reflexivity].
          apply (convert_distance_of_number tD distance dv du x FD).
        - exists distance; apply convert_distance_passthrough, TD. }
      destruct CD as (nd & ->); simpl.
      rewrite (convert_temperature_raises tT reading tv tu TT FT).
      reflexivity.
Qed.

(** A row that is none of the rows of [row_raises] is written. *)
Lemma process_row_written (tT tD : pystr) (r : row) :
  (forall e, ~ row_raises tT tD r e) ->
  exists out, process_row tT tD r = OK out.
Proof.
  intros N; destruct (process_row tT tD r) as [out|e] eqn:E; [eauto|].
  apply process_row_raises_iff in E; destruct (N e E).
Qed.

Lemma processed_when_none_raises (tT tD : pystr) (rows : list row) :
  Forall (fun r => forall e, ~ row_raises tT tD r e) rows ->
  exists outs, processed tT tD rows outs.
Proof.
  induction 1 as [|r rows N _ (outs & P)]; [exists []; constructor|].
  destruct (process_row_written tT tD r N) as (out & E).
  exists (out :: outs); constructor; assumption.
Qed.

(** X5: the exceptions of a row, exactly.  A row ends with the exception
    [e] if and only if it is one of these: a row that has not three fields
    ([ValueError] with the number of fields); a row with an empty distance
    ([IndexError]); a row whose distance is not empty and whose reading has
    [n] degree signs, [n] other than 1 ([ValueError] with [n + 1] pieces);
    a row whose reading has one degree sign and whose distance is converted
    and has a value [float] rejects ([ValueError] with that value); a row
    whose distance is written and whose reading is converted and has a
    value [float] rejects ([ValueError] with that value). *)
Theorem process_row_exceptions (tT tD : pystr) (r : row) (e : exn) :
  process_row tT tD r = Raise e <-> row_raises tT tD r e.
Proof. exact (process_row_raises_iff tT tD r e). Qed.

Lemma process_row_exceptions_witness :
  process_row (str "F") (str "m")
    [str "2024-01-01"; str "41m"; reading_of "1o" "C"]
  = Raise (ValueError_float (str "1o")).
Proof.
  apply (proj2 (process_row_exceptions (str "F") (str "m")
                  [str "2024-01-01"; str "41m"; reading_of "1o" "C"]
                  (ValueError_float (str "1o")))).
  apply (raises_reading_value (str "F") (str "m") (str "2024-01-01")
           (str "41m") (reading_of "1o" "C") (str "41") (str "m")
           (str "1o") (degree :: str "C"));
    try (vm_compute; reflexivity); vm_compute; discriminate.
Defined.

(** C9, the claim as the spec has it, fails: the rows [abcm], [41yd] with
    [10°K], and [m] are malformed in the ways the spec names (a value that
    is no number, unsupported units, a distance that is only its suffix),
    and with the targets [C] and [m] the run does not stop at any of them:
    each is written as it is and the row after them is written too. *)
Lemma malformed_rows_do_not_abort :
  convert_data (str "C") (str "m")
    [header_row;
     [str "2024-01-01"; str "abcm"; reading_of "10" "C"];
     [str "2024-01-02"; str "41yd"; reading_of "10" "K"];
     [str "2024-01-03"; str "m"; reading_of "10" "C"];
     scenario_row]
  = ([header_row;
      [str "2024-01-01"; str "abcm"; reading_of "10" "C"];
      [str "2024-01-02"; str "41yd"; reading_of "10" "K"];
      [str "2024-01-03"; str "m"; reading_of "10" "C"];
      scenario_row], OK tt).
Proof. vm_compute; reflexivity. Qed.

(** C9, amended: processing is fail-stop on the rows that raise.  Rows are
    processed in input order; the first row that is one of the rows of
    [row_raises] (not three fields, an empty distance, a reading without
    exactly one degree sign, a converted field whose value [float]
    rejects) ends the run with its exception, and the output then holds the
    header and the rows written for the rows before it, with no rollback.
    A row that is none of these is written, however malformed it is
    otherwise, and the run goes on: when no row is one of them the run ends
    normally with one row written for each. *)
Theorem fail_stop_on_first_raising_row (tT tD : pystr) (header : row) :
  (forall (pre : list row) (bad : row) (post : list row) (e : exn),
     Forall (fun r => forall e', ~ row_raises tT tD r e') pre ->
     row_raises tT tD bad e ->
     exists outs,
       processed tT tD pre outs
       /\ convert_data tT tD (header :: pre ++ bad :: post)
          = (header :: outs, Raise e))
  /\ (forall rows : list row,
        Forall (fun r => forall e', ~ row_raises tT tD r e') rows ->
        exists outs,
          processed tT tD rows outs
          /\ convert_data tT tD (header :: rows) = (header :: outs, OK tt)).
Proof.
  split.
  - intros pre bad post e N B.
    destruct (processed_when_none_raises tT tD pre N) as (outs & P).
    exists outs; split; [exact P|].
    apply convert_data_raises; [exact P|].
    apply process_row_raises_iff, B.
  - intros rows N.
    destruct (processed_when_none_raises tT tD rows N) as (outs & P).
    exists outs; split; [exact P|].
    apply convert_data_completes, P.
Qed.

Lemma fail_stop_on_first_raising_row_witness :
  exists outs,
    processed (str "F") (str "f")
      [[str "2024-01-01"; str "41yd"; reading_of "10" "K"]; scenario_row]
      outs
    /\ convert_data (str "F") (str "f")
         (header_row
          :: [[str "2024-01-01"; str "41yd"; reading_of "10" "K"];
              scenario_row]
          ++ [str "2024-01-02"; str "5m"; str "10C"] :: [scenario_row])
       = (header_row :: outs, Raise (ValueError_unpack 2 1)).
Proof.
  apply (proj1 (fail_stop_on_first_raising_row (str "F") (str "f")
                  header_row)).
  - repeat constructor; intros e' R; apply process_row_raises_iff in R;
      vm_compute in R; discriminate.
  - apply (raises_degree_signs (str "F") (str "f") (str "2024-01-02")
             (str "5m") (str "10C")); vm_compute; discriminate.
Defined.
